(** * JSI dispatch: a shallow embedding of [yt_dlp/jsinterp/common.py]

    The module selects, among the registered JavaScript interpreter
    backends ("JSI"), those that support a requested feature set, ranks
    them by summed preference scores and tries them in turn.

    Conventions of the embedding:
    - a Python [set] of feature names is a [gset string];
    - a Python [dict] whose iteration order is observable
      ([_JSI_HANDLERS], [JSIWrapper._handler_dict]) is an association
      list kept in insertion order;
    - a [**kwargs] dict, of which only membership and values are used,
      is a [gmap string PyVal];
    - Python [int] is [Z];
    - raising is a [Raise] result, and the calls made on backends are
      recorded in a trace of [Event]s threaded through the code. *)

From stdpp Require Import base strings gmap sets list sorting pretty.
From Stdlib Require Import ZArith Lia.

Open Scope Z_scope.
Open Scope string_scope.
Open Scope list_scope.

(** ** Python values, exceptions and results *)

(** The values that flow through [JSIWrapper.execute]: [None], strings
    (code, ids, notes, html) and opaque objects such as a cookie jar. *)
Inductive PyVal :=
| PNone
| PStr (s : string)
| PObj (id : nat).

#[global] Instance PyVal_eq_dec : EqDecision PyVal.
Proof. solve_decision. Defined.

(** An f-string message: literal text and interpolated values.  A set is
    kept as a value because the order in which CPython prints the
    elements of a set is unspecified. *)
Inductive Frag :=
| Str (s : string)
| Features (fs : gset string)
| Names (l : list string).

#[global] Instance Frag_eq_dec : EqDecision Frag.
Proof. solve_decision. Defined.

Definition Msg := list Frag.

Inductive Exception :=
| ExtractorError (msg : Msg)
| AssertionError (msg : Msg)
| TypeError (msg : Msg)
| AttributeError (msg : Msg)
| OtherException (msg : Msg).

#[global] Instance Exception_eq_dec : EqDecision Exception.
Proof. unfold Msg. solve_decision. Defined.

Inductive Result (A : Type) :=
| Return (a : A)
| Raise (e : Exception).
Arguments Return {A} a.
Arguments Raise {A} e.

(** ** Features *)

Definition _ALL_FEATURES : gset string :=
  {[ "wasm"; "location"; "dom"; "cookies" ]}.

(** [set.issuperset] *)
Definition issuperset (s features : gset string) : bool :=
  bool_decide (features ⊆ s).

(** ** JSI classes and instances *)

(** What calling a method of a backend does. *)
Inductive CallOutcome :=
| Returned (v : PyVal)
| RaisedExtractorError (msg : Msg)
| RaisedOther (msg : Msg).

Abbreviation Kwargs := (gmap string PyVal).

(** A concrete subclass of [JSI].  [cls_init] is what the subclass'
    own [__init__] does with the extra keyword arguments (it may raise),
    [cls_is_available] the answer of [is_available()], [cls_getattr]
    the bound methods found by [getattr], and [cls_bases] the names of
    the proper ancestors of the class. *)
Record JSIClass := {
  cls_name : string;
  _SUPPORTED_FEATURES : gset string;
  _BASE_PREFERENCE : Z;
  cls_bases : list string;
  cls_init : Kwargs → option Exception;
  cls_is_available : bool;
  cls_getattr : string → option (list PyVal → Kwargs → CallOutcome)
}.

(** [s[:-3]] *)
Definition drop_last3 (s : string) : string :=
  String.substring 0 (String.length s - 3)%nat s.

(** [JSI.JSI_NAME] and [JSI.JSI_KEY] are both [cls.__name__[:-3]]. *)
Definition cls_JSI_NAME (cls : JSIClass) : string := drop_last3 (cls_name cls).
Definition cls_JSI_KEY (cls : JSIClass) : string := drop_last3 (cls_name cls).

(** The fields [JSI.__init__] stores.  The timeout, a number of seconds,
    is only stored and handed to the backend. *)
Record JSI := {
  jsi_class : JSIClass;
  jsi_url : string;
  jsi_timeout : Z;
  jsi_features : gset string;
  jsi_user_agent : string
}.

Definition JSI_NAME (h : JSI) : string := cls_JSI_NAME (jsi_class h).
Definition JSI_KEY (h : JSI) : string := cls_JSI_KEY (jsi_class h).
Definition is_available (h : JSI) : bool := cls_is_available (jsi_class h).
Definition getattr (h : JSI) (name : string) := cls_getattr (jsi_class h) name.

(** An element of the iterables accepted by [get_jsi_keys]:
    [str | type[JSI] | JSI]. *)
Inductive JsiOrKey :=
| OfStr (key : string)
| OfClass (cls : JSIClass)
| OfInstance (h : JSI).

Definition get_jsi_keys (jsi_or_keys : list JsiOrKey) : list string :=
  map (λ jok, match jok with
              | OfStr s => s
              | OfClass cls => cls_JSI_KEY cls
              | OfInstance h => JSI_KEY h
              end) jsi_or_keys.

(** ** Ordered dictionaries *)

Section odict.
Context {V : Type}.

Fixpoint odict_get (d : list (string * V)) (k : string) : option V :=
  match d with
  | [] => None
  | (k', v) :: d' => if decide (k' = k) then Some v else odict_get d' k
  end.

Fixpoint odict_set (d : list (string * V)) (k : string) (v : V) : list (string * V) :=
  match d with
  | [] => [(k, v)]
  | (k', v') :: d' =>
      if decide (k' = k) then (k, v) :: d' else (k', v') :: odict_set d' k v
  end.

Definition odict_keys (d : list (string * V)) : list string := d.*1.
Definition odict_values (d : list (string * V)) : list V := d.*2.

End odict.

(** ** The backend registry and its filters *)

Definition Registry := list (string * JSIClass).

(** Truthiness of an optional iterable argument ([if only_include:]). *)
Definition truthy {A} (o : option (list A)) : bool :=
  match o with
  | Some (_ :: _) => true
  | _ => false
  end.

Definition supports (_JSI_HANDLERS : Registry) (features : gset string) (key : string) : bool :=
  match odict_get _JSI_HANDLERS key with
  | Some cls => issuperset (_SUPPORTED_FEATURES cls) features
  | None => false
  end.

Definition filter_jsi_keys (_JSI_HANDLERS : Registry)
    (features : option (gset string))
    (only_include exclude : option (list JsiOrKey)) : list string :=
  let keys := odict_keys _JSI_HANDLERS in
  let keys :=
    match features with
    | Some fs =>
        if decide (fs = ∅) then keys
        else filter (λ key, supports _JSI_HANDLERS fs key) keys
    | None => keys
    end in
  let keys :=
    if truthy only_include
    then filter (λ key, key ∈ get_jsi_keys (default [] only_include)) keys
    else keys in
  let keys :=
    if truthy exclude
    then filter (λ key, key ∉ get_jsi_keys (default [] exclude)) keys
    else keys in
  keys.



(** [register_jsi].  [issubclass(jsi_cls, JSI)] holds by typing; the
    assertion of [JSI_KEY] on the class name is evaluated here, where the
    key of a class is first computed. *)
Definition endswith_JSI (s : string) : bool :=
  bool_decide (String.substring (String.length s - 3)%nat 3 s = "JSI").

Definition register_jsi (_JSI_HANDLERS : Registry) (jsi_cls : JSIClass) : Result Registry :=
  if negb (endswith_JSI (cls_name jsi_cls)) then
    Raise (AssertionError [Str "JSI class names must end with JSI"])
  else if bool_decide (cls_JSI_KEY jsi_cls ∈ odict_keys _JSI_HANDLERS) then
    Raise (AssertionError [Str "JSI "; Str (cls_JSI_KEY jsi_cls); Str " already registered"])
  else if negb (bool_decide (_SUPPORTED_FEATURES jsi_cls ⊆ _ALL_FEATURES)) then
    Raise (AssertionError [Features (_SUPPORTED_FEATURES jsi_cls ∖ _ALL_FEATURES);
                           Str "  not declared in `_All_FEATURES`"])
  else Return (odict_set _JSI_HANDLERS (cls_JSI_KEY jsi_cls) jsi_cls).

(** ** Preferences *)

(** A scorer takes the handler, the method name and the arguments of
    the request; [_get_handlers] passes the positional and keyword arguments of the
    request as two values. *)
Definition JSIPreference := JSI → string → list PyVal → Kwargs → Z.

Definition enumerate {A} (l : list A) : list (nat * A) := imap (λ i x, (i, x)) l.

(** The dict comprehension of [order_to_pref]: later items overwrite. *)
Definition pref_score_of (jsi_order : list string) (multiplier : Z) : gmap string Z :=
  foldl (λ d ik, <[ik.2 := (Z.of_nat ik.1 + 1) * multiplier]> d) ∅ (enumerate jsi_order).

Definition order_to_pref (jsi_order : list JsiOrKey) (multiplier : Z) : JSIPreference :=
  let jsi_order := reverse (get_jsi_keys jsi_order) in
  let pref_score := pref_score_of jsi_order multiplier in
  λ jsi _ _ _, default 0 (pref_score !! JSI_KEY jsi).

Definition isinstance (h : JSI) (classes : list JSIClass) : bool :=
  existsb (λ c, bool_decide (cls_name c = cls_name (jsi_class h)
                             ∨ cls_name c ∈ cls_bases (jsi_class h))) classes.

(** [register_jsi_preference] applied to the classes [handlers] and then
    to [pref_func]: the wrapped scorer [inner],
    and the process-wide set with the scorer added. *)
Definition restricted_pref (handlers : list JSIClass) (pref_func : JSIPreference) : JSIPreference :=
  λ handler method_name args kwargs,
    if bool_decide (handlers = []) || isinstance handler handlers
    then pref_func handler method_name args kwargs
    else 0.

Definition register_jsi_preference (_JSI_PREFERENCES : list JSIPreference)
    (handlers : list JSIClass) (pref_func : JSIPreference) : list JSIPreference :=
  _JSI_PREFERENCES ++ [restricted_pref handlers pref_func].

Definition _base_preference : JSIPreference :=
  λ handler _ _ _, _BASE_PREFERENCE (jsi_class handler).

(** The process-wide scorers once the module is loaded. *)
Definition initial_JSI_PREFERENCES : list JSIPreference :=
  register_jsi_preference [] [] _base_preference.

(** ** Effects *)

(** What the code does to its collaborators, in program order.
    [write_debug] output is not recorded. *)
Inductive Event :=
| EvWarning (msg : Msg)
| EvInstantiate (key : string)
| EvIsAvailable (key : string)
| EvCall (key method_name : string).

#[global] Instance Event_eq_dec : EqDecision Event.
Proof. unfold Msg. solve_decision. Defined.

(** A computation: the events it emitted and how it ended. *)
Definition M (A : Type) : Type := list Event * Result A.

Definition ret {A} (a : A) : M A := ([], Return a).
Definition raise {A} (e : Exception) : M A := ([], Raise e).
Definition emit (ev : Event) : M unit := ([ev], Return tt).
Definition bind {A B} (m : M A) (k : A → M B) : M B :=
  match m with
  | (tr, Return a) => let '(tr', r) := k a in (tr ++ tr', r)
  | (tr, Raise e) => (tr, Raise e)
  end.

Notation "'let*' x ':=' m 'in' k" := (bind m (λ x, k))
  (at level 10, x name, m at level 100, k at level 200, only parsing).
Notation "'do' m 'then' k" := (bind m (λ _, k))
  (at level 10, m at level 100, k at level 200, only parsing).

(** The keys of the backends an event touches. *)
Definition event_key (ev : Event) : option string :=
  match ev with
  | EvWarning _ => None
  | EvInstantiate k | EvIsAvailable k | EvCall k _ => Some k
  end.

Definition instantiated (tr : list Event) : list string :=
  omap (λ ev, match ev with EvInstantiate k => Some k | _ => None end) tr.
Definition probed (tr : list Event) : list string :=
  omap (λ ev, match ev with EvIsAvailable k => Some k | _ => None end) tr.
Definition called (tr : list Event) : list string :=
  omap (λ ev, match ev with EvCall k _ => Some k | _ => None end) tr.

(** ** The wrapper *)

(** The parameters of [YoutubeDL] that the wrapper reads. *)
Record YoutubeDL := {
  params_jsi_preference : list string;
  params_test : bool;
  params_user_agent : string
}.

Record JSIWrapper := {
  _downloader : YoutubeDL;
  _url : string;
  _features : gset string;
  _handler_dict : list (string * JSI);
  preferences : list JSIPreference;
  _fallback_jsi : list string;
  _is_test : bool
}.

(** [fallback_jsi]: an iterable of backends, or the literal ['all']. *)
Inductive FallbackPolicy :=
| FallbackAll
| FallbackOnly (l : list JsiOrKey).

(** [JSI.__init__], run after the subclass' own part. *)
Definition JSI__init__ (cls : JSIClass) (downloader : YoutubeDL) (url : string)
    (timeout : Z) (features : gset string) (user_agent : option string)
    (extra : Kwargs) : Result JSI :=
  match cls_init cls extra with
  | Some e => Raise e
  | None =>
      if negb (issuperset (_SUPPORTED_FEATURES cls) features) then
        Raise (ExtractorError [Str (cls_JSI_NAME cls);
                               Str " does not support all required features: ";
                               Features features])
      else
        Return {| jsi_class := cls; jsi_url := url; jsi_timeout := timeout;
                  jsi_features := features;
                  jsi_user_agent :=
                    match user_agent with
                    | Some ua => if decide (ua = "") then params_user_agent downloader else ua
                    | None => params_user_agent downloader
                    end |}
  end.

(** [list.remove]: drops the first occurrence. *)
Fixpoint list_remove (x : string) (l : list string) : list string :=
  match l with
  | [] => []
  | y :: l' => if decide (y = x) then l' else y :: list_remove x l'
  end.

(** The loop of [__init__] over the invalid entries of [jsi_preference]:
    one warning and one [remove] per invalid occurrence.  The list is
    the one held in the parameters of the downloader, which is why the
    wrapper built below carries the downloader with the shortened
    list. *)
Fixpoint drop_invalid_prefs (invalid : list string) (user_prefs : list string)
    : M (list string) :=
  match invalid with
  | [] => ret user_prefs
  | invalid_key :: rest =>
      do emit (EvWarning [Str "`"; Str invalid_key;
                          Str "` is not a valid JSI, ignoring preference setting"]) then
      drop_invalid_prefs rest (list_remove invalid_key user_prefs)
  end.

(** The dict comprehension that instantiates every selected class. *)
Fixpoint instantiate_all (downloader : YoutubeDL) (url : string) (timeout : Z)
    (features : gset string) (user_agent : option string)
    (jsi_params : gmap string Kwargs)
    (handler_classes : list JSIClass) (acc : list (string * JSI))
    : M (list (string * JSI)) :=
  match handler_classes with
  | [] => ret acc
  | cls :: rest =>
      do emit (EvInstantiate (cls_JSI_KEY cls)) then
      match JSI__init__ cls downloader url timeout features user_agent
              (default ∅ (jsi_params !! cls_JSI_KEY cls)) with
      | Raise e => raise e
      | Return h =>
          instantiate_all downloader url timeout features user_agent jsi_params
            rest (odict_set acc (cls_JSI_KEY cls) h)
      end
  end.

Section construction.

(** [sanitize_url(url_or_none(url))] of [yt_dlp.utils], which is not part
    of the module: [None] for a string that is not a URL. *)
Variable sanitize_url_or_none : string → option string.

(** The process-wide registries the constructor reads. *)
Variable _JSI_HANDLERS : Registry.
Variable _JSI_PREFERENCES : list JSIPreference.

Definition __init__ (dl : YoutubeDL) (url : string) (features : list string)
    (only_include exclude : list JsiOrKey) (jsi_params : gmap string Kwargs)
    (preferred_order : list JsiOrKey) (fallback_jsi : FallbackPolicy)
    (timeout : Z) (user_agent : option string) : M JSIWrapper :=
  let self_url := default "" (sanitize_url_or_none url) in
  let self_features : gset string := list_to_set features in
  do (if bool_decide (url ≠ "") && bool_decide (self_url = "")
      then emit (EvWarning [Str "Invalid URL: "; Str url; Str ", using empty string instead"])
      else ret tt) then
  let unsupported_features := self_features ∖ _ALL_FEATURES in
  if negb (bool_decide (unsupported_features = ∅)) then
    raise (ExtractorError [Str "Unsupported features: "; Features unsupported_features;
                           Str ", allowed features: "; Features _ALL_FEATURES])
  else
  let* user_prefs := drop_invalid_prefs
      (filter (λ jsi_key, jsi_key ∉ odict_keys _JSI_HANDLERS) (params_jsi_preference dl))
      (params_jsi_preference dl) in
  (* the keys come from the registry, so that no lookup fails *)
  let handler_classes :=
    omap (odict_get _JSI_HANDLERS)
         (filter_jsi_keys _JSI_HANDLERS (Some self_features) (Some only_include) (Some exclude)) in
  if bool_decide (handler_classes = []) then
    raise (ExtractorError [Str "No JSI supports features="; Features self_features])
  else
  let* handler_dict := instantiate_all dl self_url timeout self_features user_agent
      jsi_params handler_classes [] in
  ret {| _downloader := {| params_jsi_preference := user_prefs;
                           params_test := params_test dl;
                           params_user_agent := params_user_agent dl |};
         _url := self_url;
         _features := self_features;
         _handler_dict := handler_dict;
         preferences := [order_to_pref (OfStr <$> user_prefs) 10000;
                         order_to_pref preferred_order 100] ++ _JSI_PREFERENCES;
         _fallback_jsi :=
           match fallback_jsi with
           | FallbackAll => get_jsi_keys (OfClass <$> handler_classes)
           | FallbackOnly l => get_jsi_keys l
           end;
         _is_test := params_test dl |}.

End construction.

(** ** Ranking the handlers of a request *)

(** [sorted(handlers, key=..., reverse=True)].  Python's sort is stable
    and stays stable under [reverse=True]: the result is the one list
    that is in descending key order and keeps equal keys in their
    original order, which is what this insertion sort builds. *)
Fixpoint insert_desc {A} (key : A → Z) (x : A) (l : list A) : list A :=
  match l with
  | [] => [x]
  | y :: l' => if decide (key y ≤ key x)%Z then x :: l else y :: insert_desc key x l'
  end.

Definition sorted_reverse {A} (key : A → Z) (l : list A) : list A :=
  foldr (insert_desc key) [] l.

(** [sum(pref_func(handler, method_name, args, kwargs) for pref_func in
    self.preferences)] *)
Definition sum_Z (l : list Z) : Z := foldl Z.add 0 l.

Definition combined_preference (self : JSIWrapper) (method_name : string)
    (args : list PyVal) (kwargs : Kwargs) (handler : JSI) : Z :=
  sum_Z ((λ pref_func : JSIPreference, pref_func handler method_name args kwargs)
           <$> preferences self).

(** [callable(getattr(h, method_name, None))] *)
Definition has_method (method_name : string) (h : JSI) : bool :=
  bool_decide (is_Some (getattr h method_name)).

Definition _get_handlers (self : JSIWrapper) (method_name : string)
    (args : list PyVal) (kwargs : Kwargs) : Result (list JSI) :=
  let handlers := filter (λ h, has_method method_name h) (odict_values (_handler_dict self)) in
  if bool_decide (handlers = []) then
    Raise (ExtractorError [Str "No JSI supports method `"; Str method_name;
                           Str "`, included handlers: ";
                           Names (get_jsi_keys (OfInstance <$> odict_values (_handler_dict self)))])
  else
    let preferences : gmap string Z :=
      foldl (λ d handler, <[JSI_KEY handler :=
                              combined_preference self method_name args kwargs handler]> d)
            ∅ handlers in
    Return (sorted_reverse (λ h, default 0 (preferences !! JSI_KEY h)) handlers).

(** ** Dispatch *)

(** [', '.join(names)] *)
Fixpoint join_comma (names : list string) : string :=
  match names with
  | [] => ""
  | [x] => x
  | x :: rest => x +:+ ", " +:+ join_comma rest
  end.

(** How the [for] loop of [_dispatch_request] ends: by [return], by an
    exception, or by running out of handlers with its two lists. *)
Inductive LoopEnd :=
| LoopReturn (v : PyVal)
| LoopRaise (e : Exception)
| LoopExhausted (unavailable : list string) (exceptions : list (JSI * Msg)).

Fixpoint dispatch_loop (self : JSIWrapper) (method_name : string)
    (args : list PyVal) (kwargs : Kwargs) (handlers : list JSI)
    (unavailable : list string) (exceptions : list (JSI * Msg))
    : list Event * LoopEnd :=
  match handlers with
  | [] => ([], LoopExhausted unavailable exceptions)
  | handler :: rest =>
      if negb (is_available handler) then
        if _is_test self then
          ([EvIsAvailable (JSI_KEY handler)],
           LoopRaise (ExtractorError
             [Str (JSI_NAME handler); Str " is not available for testing, add ";
              Str (JSI_KEY handler); Str " in `exclude` if it should not be used"]))
        else
          let '(tr, r) := dispatch_loop self method_name args kwargs rest
                            (unavailable ++ [JSI_NAME handler]) exceptions in
          (EvIsAvailable (JSI_KEY handler) :: tr, r)
      else
        match getattr handler method_name with
        | None =>
            ([EvIsAvailable (JSI_KEY handler)],
             LoopRaise (AttributeError [Str method_name]))
        | Some method =>
            let probe_call := [EvIsAvailable (JSI_KEY handler);
                               EvCall (JSI_KEY handler) method_name] in
            match method args kwargs with
            | Returned v => (probe_call, LoopReturn v)
            | RaisedOther msg => (probe_call, LoopRaise (OtherException msg))
            | RaisedExtractorError e =>
                if bool_decide (JSI_KEY handler ∉ _fallback_jsi self) then
                  (probe_call, LoopRaise (ExtractorError e))
                else
                  let '(tr, r) := dispatch_loop self method_name args kwargs rest
                                    unavailable (exceptions ++ [(handler, e)]) in
                  (probe_call ++ tr, r)
            end
        end
  end.

(** The message raised once every handler has been tried. *)
Definition exhausted_msg (method_name : string) (unavailable : list string)
    (exceptions : list (JSI * Msg)) : string :=
  if bool_decide (exceptions = []) then
    "No available JSI installed, please install one of: " +:+ join_comma unavailable
  else
    let msg := "Failed to perform " +:+ method_name +:+ ", total "
               +:+ pretty (length exceptions) +:+ " errors" in
    if bool_decide (unavailable ≠ []) then
      msg +:+ ". You can try installing one of unavailable JSI: " +:+ join_comma unavailable
    else msg.

(** What [_dispatch_request] does with the end of its loop: the code
    after the loop raises the aggregated error. *)
Definition after_loop (method_name : string) (run : list Event * LoopEnd) : M PyVal :=
  match run with
  | (tr, LoopReturn v) => (tr, Return v)
  | (tr, LoopRaise e) => (tr, Raise e)
  | (tr, LoopExhausted unavailable exceptions) =>
      (tr, Raise (ExtractorError [Str (exhausted_msg method_name unavailable exceptions)]))
  end.

Definition _dispatch_request (self : JSIWrapper) (method_name : string)
    (args : list PyVal) (kwargs : Kwargs) : M PyVal :=
  match _get_handlers self method_name args kwargs with
  | Raise e => raise e
  | Return handlers =>
      after_loop method_name (dispatch_loop self method_name args kwargs handlers [] [])
  end.

(** ** The feature check on keyword arguments *)

(** A value of the table given to [require_features]: one feature name
    or an iterable of them. *)
Inductive FeatureSpec :=
| OneFeature (f : string)
| ManyFeatures (fs : list string).

(** Modelled from the spec: [variadic] of [yt_dlp.utils] is not part of
    the module.  A parameter "requires the corresponding capability":
    a single name stands for the one-element collection, an iterable is
    taken as it is. *)
Definition variadic (x : FeatureSpec) : list string :=
  match x with
  | OneFeature f => [f]
  | ManyFeatures fs => fs
  end.

(** Modelled from the spec: [filter_dict] of [yt_dlp.utils] is not part
    of the module.  With its default condition it keeps the items whose
    value is not [None], so that an absent optional argument is not
    forwarded to the backends. *)
Definition filter_dict (dct : Kwargs) : Kwargs :=
  filter (λ kv : string * PyVal, kv.2 ≠ PNone) dct.

Definition Method := JSIWrapper → list PyVal → Kwargs → M PyVal.

Definition feature_repr (x : FeatureSpec) : Frag :=
  match x with
  | OneFeature f => Str f
  | ManyFeatures fs => Names fs
  end.

(** The loop of [inner]: the first entry of the table, in its order,
    whose name is among the keyword arguments while the wrapper lacks
    the feature, raises. *)
Fixpoint check_features (param_features : list (string * FeatureSpec))
    (self : JSIWrapper) (kwargs : Kwargs) : option Exception :=
  match param_features with
  | [] => None
  | (kw_name, kw_feature) :: rest =>
      if bool_decide (kw_name ∈ (dom kwargs : gset string))
         && negb (issuperset (_features self) (list_to_set (variadic kw_feature)))
      then Some (ExtractorError [Str "feature "; feature_repr kw_feature;
                                 Str " is required for `"; Str kw_name;
                                 Str "` param but not declared"])
      else check_features rest self kwargs
  end.

(** [require_features(param_features)]: the assertion runs when the
    decorator is built, the check at every call. *)
Definition require_features (param_features : list (string * FeatureSpec))
    : Result (Method → Method) :=
  if negb (forallb (λ kf : string * FeatureSpec,
                      issuperset _ALL_FEATURES (list_to_set (variadic kf.2)))
                   param_features)
  then Raise (AssertionError [])
  else Return (λ (func : Method) self args kwargs,
                 match check_features param_features self kwargs with
                 | Some e => raise e
                 | None => func self args kwargs
                 end).

(** ** [JSIWrapper.execute] *)

(** Binding of a call to the parameters of a Python function whose
    first [n_required] parameters have no default and whose other
    parameters default to [None]. *)
Definition bind_arguments (names : list string) (n_required : nat)
    (args : list PyVal) (kwargs : Kwargs) : Result (gmap string PyVal) :=
  let positional := zip names args in
  let given : gset string := dom kwargs in
  if bool_decide (length names < length args)%nat then
    Raise (TypeError [Str "too many positional arguments"])
  else if negb (bool_decide (given ⊆ list_to_set names)) then
    Raise (TypeError [Str "unexpected keyword argument"])
  else if negb (bool_decide (given ## list_to_set (positional.*1))) then
    Raise (TypeError [Str "multiple values for argument"])
  else
    let bound : gmap string PyVal := list_to_map positional ∪ kwargs in
    if negb (bool_decide (list_to_set (take n_required names) ⊆ (dom bound : gset string))) then
      Raise (TypeError [Str "missing required positional argument"])
    else Return bound.

Definition execute_params : list string :=
  ["jscode"; "video_id"; "note"; "html"; "cookiejar"].

(** The undecorated body of [execute]. *)
Definition execute_body : Method := λ self args kwargs,
  match bind_arguments execute_params 2 args kwargs with
  | Raise e => raise e
  | Return bound =>
      let param name := default PNone (bound !! name) in
      _dispatch_request self "execute" [param "jscode"; param "video_id"]
        (filter_dict (list_to_map [("note", param "note"); ("html", param "html");
                                   ("cookiejar", param "cookiejar")]))
  end.

Definition execute_features : list (string * FeatureSpec) :=
  [("location", OneFeature "location"); ("html", OneFeature "dom");
   ("cookiejar", OneFeature "cookies")].

Definition execute : Method :=
  match require_features execute_features with
  | Return decorate => decorate execute_body
  | Raise e => λ _ _ _, raise e
  end.

(** ** Sample backends *)

Module Sample.

(** A backend class whose only method is [execute]. *)
Definition backend (name : string) (supported : gset string) (base : Z)
    (available : bool) (outcome : CallOutcome) : JSIClass :=
  {| cls_name := name;
     _SUPPORTED_FEATURES := supported;
     _BASE_PREFERENCE := base;
     cls_bases := ["JSI"];
     cls_init := λ _, None;
     cls_is_available := available;
     cls_getattr := λ m, if decide (m = "execute") then Some (λ _ _, outcome) else None |}.

Definition AlphaJSI : JSIClass :=
  backend "AlphaJSI" {[ "wasm"; "location"; "dom"; "cookies" ]} 0 true
          (Returned (PStr "alpha")).
Definition BetaJSI : JSIClass :=
  backend "BetaJSI" {[ "wasm"; "location" ]} 0 true (Returned (PStr "beta")).
Definition GammaJSI : JSIClass :=
  backend "GammaJSI" {[ "dom" ]} 0 false (Returned (PStr "gamma")).
Definition DeltaJSI : JSIClass :=
  backend "DeltaJSI" {[ "dom"; "cookies" ]} 0 true
          (RaisedExtractorError [Str "delta failed"]).

Definition EpsilonJSI : JSIClass :=
  backend "EpsilonJSI" {[ "wasm" ]} 0 false (Returned (PStr "epsilon")).

(** A backend without the dom feature whose [execute] returns the
    [html] keyword argument it was given. *)
Definition EchoJSI : JSIClass :=
  {| cls_name := "EchoJSI";
     _SUPPORTED_FEATURES := {[ "wasm" ]};
     _BASE_PREFERENCE := 0;
     cls_bases := ["JSI"];
     cls_init := λ _, None;
     cls_is_available := true;
     cls_getattr := λ m,
       if decide (m = "execute")
       then Some (λ _ kwargs, Returned (default PNone (kwargs !! "html")))
       else None |}.

(** A backend with a negative base preference. *)
Definition ZetaJSI : JSIClass :=
  backend "ZetaJSI" {[ "wasm" ]} (-200) true (Returned (PStr "zeta")).

(** The registry after registering [classes] in turn, starting from [R];
    a failed registration leaves the registry as it was. *)
Definition register_all (R : Registry) (classes : list JSIClass) : Registry :=
  foldl (λ R cls, match register_jsi R cls with Return R' => R' | Raise _ => R end)
        R classes.

Definition registry : Registry :=
  register_all [] [AlphaJSI; BetaJSI; GammaJSI; DeltaJSI; EpsilonJSI; ZetaJSI; EchoJSI].

Definition dl : YoutubeDL :=
  {| params_jsi_preference := []; params_test := false;
     params_user_agent := "Mozilla/5.0" |}.

Definition instance (cls : JSIClass) : JSI :=
  {| jsi_class := cls; jsi_url := ""; jsi_timeout := 10;
     jsi_features := ∅; jsi_user_agent := "Mozilla/5.0" |}.

(** A wrapper over the given classes, with no feature declared. *)
Definition wrapper (classes : list JSIClass) (prefs : list JSIPreference)
    (fallback : list string) (test : bool) : JSIWrapper :=
  {| _downloader := dl; _url := ""; _features := ∅;
     _handler_dict := (λ cls, (cls_JSI_KEY cls, instance cls)) <$> classes;
     preferences := prefs;
     _fallback_jsi := fallback;
     _is_test := test |}.

(** Four candidates ranked Gamma, Delta, Beta, Alpha by an order list;
    [Delta] may fall back. *)
Definition ranked (test : bool) : JSIWrapper :=
  wrapper [AlphaJSI; BetaJSI; GammaJSI; DeltaJSI]
          (order_to_pref [OfStr "Gamma"; OfStr "Delta"; OfStr "Beta"] 100
             :: initial_JSI_PREFERENCES)
          ["Delta"] test.

(** Two backends that are not installed. *)
Definition not_installed (test : bool) : JSIWrapper :=
  wrapper [GammaJSI; EpsilonJSI] initial_JSI_PREFERENCES [] test.

(** One backend that is not installed and one that fails and may fall
    back. *)
Definition failing (test : bool) : JSIWrapper :=
  wrapper [GammaJSI; DeltaJSI] initial_JSI_PREFERENCES ["Delta"] test.

(** A wrapper without the dom feature over the echoing backend. *)
Definition echo : JSIWrapper := wrapper [EchoJSI] initial_JSI_PREFERENCES [] false.

(** The process-wide scorers after registering one that returns 2 for
    instances of [cls]. *)
Definition prefer (cls : JSIClass) : list JSIPreference :=
  register_jsi_preference initial_JSI_PREFERENCES [cls] (λ _ _ _ _, 2%Z).

(** An operator who prefers [Beta]. *)
Definition dl_operator : YoutubeDL :=
  {| params_jsi_preference := ["Beta"]; params_test := false;
     params_user_agent := "Mozilla/5.0" |}.

End Sample.

(** ** Statements used by the properties *)

(** A registry as [register_jsi] builds it: every class is stored under
    its own key, and no key is stored twice. *)
Definition registry_wf (_JSI_HANDLERS : Registry) : Prop :=
  Forall (λ kc, kc.1 = cls_JSI_KEY kc.2) _JSI_HANDLERS ∧ NoDup (odict_keys _JSI_HANDLERS).

(** The handlers of a wrapper have pairwise different keys, as the
    values of the dict built by [__init__] do. *)
Definition wrapper_wf (self : JSIWrapper) : Prop :=
  NoDup (JSI_KEY <$> odict_values (_handler_dict self)).

(** [l] is in descending order of [key]. *)
Definition descending {A} (key : A → Z) (l : list A) : Prop :=
  ∀ i j a b, (i < j)%nat → l !! i = Some a → l !! j = Some b → (key b ≤ key a)%Z.


(** The score [deriveFromOrder] of the specification gives the key at
    0-based index [i] of a list of [n] keys: its 1-based position
    counted from the end, times the multiplier. *)
Definition score_at (n i : nat) (multiplier : Z) : Z :=
  (Z.of_nat (n - i) * multiplier)%Z.

(** Calling [method_name] on an available [h] returns [v]. *)
Definition succeeds (method_name : string) (args : list PyVal) (kwargs : Kwargs)
    (h : JSI) (v : PyVal) : Prop :=
  is_available h = true
  ∧ ∃ method, getattr h method_name = Some method ∧ method args kwargs = Returned v.

(** [h] is skipped as unavailable, or its call raises an
    [ExtractorError]. *)
Definition fails_softly (method_name : string) (args : list PyVal) (kwargs : Kwargs)
    (h : JSI) : Prop :=
  is_available h = false
  ∨ ∃ method e, getattr h method_name = Some method
                ∧ method args kwargs = RaisedExtractorError e.

(** After [h] the loop of [_dispatch_request] goes on to the next
    handler: [h] is unavailable and the wrapper is not in test mode, or
    the call of [h] raises an [ExtractorError] and [h] may fall back. *)
Definition falls_through (self : JSIWrapper) (method_name : string)
    (args : list PyVal) (kwargs : Kwargs) (h : JSI) : Prop :=
  (is_available h = false ∧ _is_test self = false)
  ∨ (is_available h = true
     ∧ ∃ method e, getattr h method_name = Some method
                   ∧ method args kwargs = RaisedExtractorError e
                   ∧ JSI_KEY h ∈ _fallback_jsi self).

(** ** Statements about the rest of the module *)

(** What the three assertions of [register_jsi] establish for every
    entry of the registry. *)
Definition registry_ok (R : Registry) : Prop :=
  registry_wf R
  ∧ Forall (λ kc, _SUPPORTED_FEATURES kc.2 ⊆ _ALL_FEATURES
                  ∧ endswith_JSI (cls_name kc.2)) R.

(** The wrapper [self] with another collection of scorers. *)
Definition with_preferences (self : JSIWrapper) (prefs : list JSIPreference) : JSIWrapper :=
  {| _downloader := _downloader self;
     _url := _url self;
     _features := _features self;
     _handler_dict := _handler_dict self;
     preferences := prefs;
     _fallback_jsi := _fallback_jsi self;
     _is_test := _is_test self |}.

(** The sum of the process-wide scorers [G] for [h]. *)
Definition global_score (G : list JSIPreference) (method_name : string)
    (args : list PyVal) (kwargs : Kwargs) (h : JSI) : Z :=
  sum_Z ((λ f : JSIPreference, f h method_name args kwargs) <$> G).


(** ** More sample backends *)

Module Demo.

(** A backend whose [execute] raises an exception that is not an
    [ExtractorError]. *)
Definition ThetaJSI : JSIClass :=
  Sample.backend "ThetaJSI" {[ "wasm" ]} 0 true (RaisedOther [Str "division by zero"]).

(** A backend whose constructor raises. *)
Definition IotaJSI : JSIClass :=
  {| cls_name := "IotaJSI";
     _SUPPORTED_FEATURES := {[ "wasm"; "dom" ]};
     _BASE_PREFERENCE := 0;
     cls_bases := ["JSI"];
     cls_init := λ _, Some (ExtractorError [Str "bad configuration"]);
     cls_is_available := true;
     cls_getattr := λ _, None |}.

(** [Theta] may fall back, and is ranked first by registration order. *)
Definition crashing : JSIWrapper :=
  Sample.wrapper [ThetaJSI; Sample.AlphaJSI] initial_JSI_PREFERENCES ["Theta"] false.

Definition registry : Registry :=
  Sample.register_all [] [Sample.AlphaJSI; IotaJSI; Sample.GammaJSI].

End Demo.

(** The warning of [__init__] for an invalid entry of [jsi_preference]. *)
Definition invalid_preference_warning (invalid_key : string) : Event :=
  EvWarning [Str "`"; Str invalid_key;
             Str "` is not a valid JSI, ignoring preference setting"].

(** * Properties *)

(** ** Ordered dictionaries and the registry *)

Lemma odict_get_is_Some {V} (d : list (string * V)) (k : string) :
  k ∈ odict_keys d → is_Some (odict_get d k).
Proof.
  unfold odict_keys. induction d as [|[k' v] d IH]; simpl.
  - intros H. by apply not_elem_of_nil in H.
  - intros H. case_decide; [by eexists|].
    apply elem_of_cons in H as [->|H]; [done|]. by apply IH.
Qed.

Lemma odict_get_elem_of {V} (d : list (string * V)) (k : string) (v : V) :
  odict_get d k = Some v → (k, v) ∈ d.
Proof.
  induction d as [|[k' v'] d IH]; simpl; [done|].
  case_decide as Hk.
  - intros [= ->]. subst. apply elem_of_cons. by left.
  - intros H. apply elem_of_cons. right. by apply IH.
Qed.

Lemma odict_keys_set {V} (d : list (string * V)) (k : string) (v : V) :
  odict_keys (odict_set d k v) =
    if bool_decide (k ∈ odict_keys d) then odict_keys d else odict_keys d ++ [k].
Proof.
  unfold odict_keys. induction d as [|[k' v'] d IH].
  { rewrite bool_decide_eq_false_2 by apply not_elem_of_nil. done. }
  cbn [odict_set]. destruct (decide (k' = k)) as [->|Hk].
  - rewrite bool_decide_eq_true_2; [done|]. rewrite fmap_cons. apply elem_of_cons. by left.
  - rewrite !fmap_cons, IH. cbn [fst].
    destruct (decide (k ∈ d.*1)) as [Hin|Hin].
    + rewrite !bool_decide_eq_true_2; [done| |done]. apply elem_of_cons. by right.
    + rewrite !bool_decide_eq_false_2; [done| |done].
      rewrite elem_of_cons. intros [->|?]; done.
Qed.

Lemma supports_spec (R : Registry) (fs : gset string) (key : string) :
  supports R fs key ↔ ∃ cls, odict_get R key = Some cls ∧ fs ⊆ _SUPPORTED_FEATURES cls.
Proof.
  unfold supports, issuperset. destruct (odict_get R key) as [cls|].
  - rewrite bool_decide_spec. split; [by eexists|]. by intros (? & [= <-] & ?).
  - split; [done|]. by intros (? & ? & ?).
Qed.

Lemma supports_empty (R : Registry) (key : string) :
  key ∈ odict_keys R → supports R ∅ key.
Proof.
  intros [cls Hcls]%odict_get_is_Some. apply supports_spec.
  exists cls. split; [done|]. set_solver.
Qed.

(** ** C3: the eligible-backend lookup *)

Lemma filter_id_in {A} (P : A → Prop) `{!∀ x, Decision (P x)} (l : list A) :
  (∀ x, x ∈ l → P x) → filter P l = l.
Proof.
  induction l as [|x l IH]; intros Hall; [done|].
  rewrite filter_cons_True by (apply Hall, elem_of_cons; by left).
  f_equal. apply IH. intros y Hy. apply Hall, elem_of_cons. by right.
Qed.


(** [filter_jsi_keys] as one filter over the registry keys. *)
Lemma filter_jsi_keys_as_filter (R : Registry) (fs : gset string)
    (only_include exclude : option (list JsiOrKey)) :
  filter_jsi_keys R (Some fs) only_include exclude
  = filter (λ key,
              supports R fs key
              ∧ (truthy only_include → key ∈ get_jsi_keys (default [] only_include))
              ∧ key ∉ get_jsi_keys (default [] exclude))
           (odict_keys R).
Proof.
  unfold filter_jsi_keys.
  assert (Hfs : (if decide (fs = ∅) then odict_keys R
                 else filter (λ key, supports R fs key) (odict_keys R))
                = filter (λ key, supports R fs key) (odict_keys R)).
  { case_decide as Hfs; [|done]. subst fs. symmetry.
    apply filter_id_in. intros. by apply supports_empty. }
  rewrite Hfs. clear Hfs.
  assert (Hinc : (if truthy only_include
                  then filter (λ key, key ∈ get_jsi_keys (default [] only_include))
                         (filter (λ key, supports R fs key) (odict_keys R))
                  else filter (λ key, supports R fs key) (odict_keys R))
                 = filter (λ key, (truthy only_include →
                                   key ∈ get_jsi_keys (default [] only_include))
                                  ∧ supports R fs key) (odict_keys R)).
  { destruct (truthy only_include) eqn:Hinc.
    - rewrite list_filter_filter. apply list_filter_iff. intros key.
      split; [intros [? ?]; split; [by intros _|done]|].
      intros [Hk ?]. split; [by apply Hk|done].
    - apply list_filter_iff. intros key.
      split; [intros ?; split; [intros []|done]|]. by intros [_ ?]. }
  rewrite Hinc. clear Hinc.
  destruct (truthy exclude) eqn:Hexc.
  - rewrite list_filter_filter. apply list_filter_iff. intros key. tauto.
  - apply list_filter_iff. intros key.
    assert (get_jsi_keys (default [] exclude) = []) as ->.
    { destruct exclude as [[|??]|]; done. }
    split; [|tauto]. intros [? ?]. split_and!; [done..|]. apply not_elem_of_nil.
Qed.


(** Eligibility is not overlap: [Beta] declares wasm and location, the
    request for wasm and dom overlaps with it, and [Beta] is not
    returned. *)
Example filter_jsi_keys_not_overlap :
  filter_jsi_keys Sample.registry (Some {[ "wasm"; "dom" ]}) None None = ["Alpha"].
Proof. by vm_compute. Qed.

(** ** C5: the scorer derived from an ordered list *)

Lemma enumerate_snoc {A} (l : list A) (x : A) :
  enumerate (l ++ [x]) = enumerate l ++ [(length l, x)].
Proof.
  unfold enumerate. rewrite imap_app. simpl. by rewrite Nat.add_0_r.
Qed.

Lemma pref_score_of_snoc (l : list string) (x : string) (m : Z) :
  pref_score_of (l ++ [x]) m
  = <[x := ((Z.of_nat (length l) + 1) * m)%Z]> (pref_score_of l m).
Proof.
  unfold pref_score_of. by rewrite enumerate_snoc, foldl_snoc.
Qed.

(** The table of [order_to_pref] maps a key to the score of its first
    occurrence in the order list, and holds no other key. *)
Lemma pref_score_of_reverse (keys : list string) (m : Z) (k : string) :
  (∀ i, keys !! i = Some k → k ∉ take i keys →
        pref_score_of (reverse keys) m !! k = Some (score_at (length keys) i m))
  ∧ (k ∉ keys → pref_score_of (reverse keys) m !! k = None).
Proof.
  induction keys as [|x keys [IHin IHout]].
  - split; [by intros i [=]|]. intros _. apply lookup_empty.
  - rewrite reverse_cons, pref_score_of_snoc, length_reverse. split.
    + intros [|i] Hi Hfirst; simpl in *.
      * injection Hi as ->. rewrite lookup_insert_eq. unfold score_at.
        do 2 f_equal. lia.
      * assert (x ≠ k) by (intros ->; apply Hfirst, elem_of_cons; by left).
        rewrite lookup_insert_ne by done.
        rewrite (IHin i Hi); [done|].
        intros ?. apply Hfirst, elem_of_cons. by right.
    + intros Hout. apply not_elem_of_cons in Hout as [? ?].
      rewrite lookup_insert_ne by done. by apply IHout.
Qed.




(** ** Traces *)

Lemma bind_Return {A B} (m : M A) (k : A → M B) (tr : list Event) (b : B) :
  bind m k = (tr, Return b) →
  ∃ tr1 a tr2, m = (tr1, Return a) ∧ k a = (tr2, Return b) ∧ tr = tr1 ++ tr2.
Proof.
  destruct m as [tr1 [a|e]]; simpl; [|done].
  destruct (k a) as [tr2 r] eqn:Hk. intros [= <- ->]. by exists tr1, a, tr2.
Qed.

Lemma instantiated_app (tr1 tr2 : list Event) :
  instantiated (tr1 ++ tr2) = instantiated tr1 ++ instantiated tr2.
Proof. unfold instantiated. apply omap_app. Qed.

Lemma probed_app (tr1 tr2 : list Event) :
  probed (tr1 ++ tr2) = probed tr1 ++ probed tr2.
Proof. unfold probed. apply omap_app. Qed.

Lemma called_app (tr1 tr2 : list Event) :
  called (tr1 ++ tr2) = called tr1 ++ called tr2.
Proof. unfold called. apply omap_app. Qed.

(** ** Construction *)

Lemma JSI__init___class cls dl url timeout fs ua extra h :
  JSI__init__ cls dl url timeout fs ua extra = Return h → jsi_class h = cls.
Proof.
  unfold JSI__init__. destruct (cls_init cls extra); [done|].
  destruct (negb _); [done|]. by intros [= <-].
Qed.

Lemma drop_invalid_prefs_trace (invalid user_prefs : list string) :
  ∃ tr prefs, drop_invalid_prefs invalid user_prefs = (tr, Return prefs)
              ∧ instantiated tr = [].
Proof.
  revert user_prefs. induction invalid as [|k invalid IH]; intros user_prefs; simpl.
  - by exists [], user_prefs.
  - destruct (IH (list_remove k user_prefs)) as (tr & prefs & -> & Htr).
    eexists _, prefs. split; [done|]. done.
Qed.

(** The dict comprehension of [__init__] calls the constructor of every
    selected class, in order, and stores each instance under its key. *)
Lemma instantiate_all_spec dl url timeout fs ua params classes acc tr d :
  instantiate_all dl url timeout fs ua params classes acc = (tr, Return d) →
  tr = (λ cls, EvInstantiate (cls_JSI_KEY cls)) <$> classes
  ∧ ∃ hs, jsi_class <$> hs = classes
          ∧ d = foldl (λ a h, odict_set a (JSI_KEY h) h) acc hs.
Proof.
  revert acc tr. induction classes as [|cls classes IH]; intros acc tr; simpl.
  - intros [= <- <-]. split; [done|]. by exists [].
  - destruct (JSI__init__ _ _ _ _ _ _ _) as [h|e] eqn:Hh; simpl; [|done].
    destruct (instantiate_all _ _ _ _ _ _ classes _) as [tr' r] eqn:Hrest.
    intros [= <- ->]. apply IH in Hrest as (-> & hs & <- & ->).
    apply JSI__init___class in Hh. split; [done|].
    exists (h :: hs). subst cls. by split.
Qed.

Lemma odict_fold_keys (acc : list (string * JSI)) (hs : list JSI) :
  NoDup (odict_keys acc ++ (JSI_KEY <$> hs)) →
  odict_keys (foldl (λ a h, odict_set a (JSI_KEY h) h) acc hs)
  = odict_keys acc ++ (JSI_KEY <$> hs).
Proof.
  revert acc. induction hs as [|h hs IH]; intros acc Hnd; simpl.
  - by rewrite app_nil_r.
  - assert (Hh : JSI_KEY h ∉ odict_keys acc).
    { apply NoDup_app in Hnd as (_ & Hd & _). intros Hin.
      apply (Hd _ Hin), elem_of_cons. by left. }
    assert (Hk : odict_keys (odict_set acc (JSI_KEY h) h) = odict_keys acc ++ [JSI_KEY h]).
    { rewrite odict_keys_set. by rewrite bool_decide_eq_false_2. }
    rewrite IH; rewrite Hk, <- app_assoc; done.
Qed.

Lemma odict_set_keyed (acc : list (string * JSI)) (h : JSI) :
  Forall (λ kh, kh.1 = JSI_KEY kh.2) acc →
  Forall (λ kh, kh.1 = JSI_KEY kh.2) (odict_set acc (JSI_KEY h) h).
Proof.
  induction acc as [|[k' h'] acc IH]; simpl; intros Hacc.
  - by repeat constructor.
  - apply Forall_cons in Hacc as [? ?]. case_decide.
    + by constructor.
    + constructor; [done|]. by apply IH.
Qed.

Lemma odict_fold_keyed (acc : list (string * JSI)) (hs : list JSI) :
  Forall (λ kh, kh.1 = JSI_KEY kh.2) acc →
  Forall (λ kh, kh.1 = JSI_KEY kh.2) (foldl (λ a h, odict_set a (JSI_KEY h) h) acc hs).
Proof.
  revert acc. induction hs as [|h hs IH]; intros acc Hacc; simpl; [done|].
  by apply IH, odict_set_keyed.
Qed.

Lemma odict_fold_NoDup (acc : list (string * JSI)) (hs : list JSI) :
  NoDup (odict_keys acc) →
  NoDup (odict_keys (foldl (λ a h, odict_set a (JSI_KEY h) h) acc hs)).
Proof.
  revert acc. induction hs as [|h hs IH]; intros acc Hacc; simpl; [done|].
  apply IH. rewrite odict_keys_set. case_bool_decide as Hin; [done|].
  apply NoDup_app. split_and!; [done| |apply NoDup_singleton].
  intros k Hk ->%list_elem_of_singleton. done.
Qed.

Lemma keyed_values_keys (d : list (string * JSI)) :
  Forall (λ kh, kh.1 = JSI_KEY kh.2) d → JSI_KEY <$> odict_values d = odict_keys d.
Proof.
  unfold odict_values, odict_keys. induction 1 as [|[k h] d Hk _ IH]; [done|].
  rewrite !fmap_cons, IH. simpl in *. by rewrite Hk.
Qed.

Lemma list_remove_app_notin (x : string) (pre l : list string) :
  x ∉ pre → list_remove x (pre ++ x :: l) = pre ++ l.
Proof.
  induction pre as [|y pre IH]; simpl; intros Hx.
  - by rewrite decide_True.
  - apply not_elem_of_cons in Hx as [? ?]. rewrite decide_False by done.
    by rewrite IH.
Qed.

(** The warn-and-remove loop leaves exactly the valid entries, in their
    order: each invalid occurrence removes one occurrence of its key. *)
Lemma drop_invalid_prefs_filter (valid : list string) (l pre : list string) :
  Forall (λ k, k ∈ valid) pre →
  ∃ tr, drop_invalid_prefs (filter (λ k, k ∉ valid) l) (pre ++ l)
        = (tr, Return (pre ++ filter (λ k, k ∈ valid) l))
        ∧ instantiated tr = [].
Proof.
  revert pre. induction l as [|x l IH]; intros pre Hpre.
  - exists []. by rewrite !filter_nil.
  - destruct (decide (x ∈ valid)) as [Hx|Hx].
    + rewrite filter_cons_False by (intros ?; done).
      rewrite filter_cons_True by done.
      destruct (IH (pre ++ [x])) as (tr & Htr & ?).
      { apply Forall_app. split; [done|]. by repeat constructor. }
      exists tr. rewrite <- !app_assoc in Htr. done.
    + rewrite filter_cons_True by done. rewrite filter_cons_False by done.
      destruct (IH pre Hpre) as (tr & Htr & ?). simpl.
      rewrite list_remove_app_notin.
      2:{ intros Hin. rewrite Forall_forall in Hpre. by apply Hx, Hpre. }
      rewrite Htr. eexists. split; [done|]. done.
Qed.

Lemma instantiated_fmap (classes : list JSIClass) :
  instantiated ((λ cls, EvInstantiate (cls_JSI_KEY cls)) <$> classes)
  = cls_JSI_KEY <$> classes.
Proof.
  induction classes as [|c cs IH]; [done|].
  rewrite !fmap_cons. unfold instantiated in *. cbn. by rewrite IH.
Qed.

Section construction_facts.

Variable sanitize_url_or_none : string → option string.
Variable _JSI_HANDLERS : Registry.
Variable _JSI_PREFERENCES : list JSIPreference.

(** What a successful construction has done and built. *)
Lemma init_Return dl url features only_include exclude jsi_params preferred_order
    fallback_jsi timeout user_agent tr self :
  __init__ sanitize_url_or_none _JSI_HANDLERS _JSI_PREFERENCES dl url features
    only_include exclude jsi_params preferred_order fallback_jsi timeout user_agent
  = (tr, Return self) →
  let fs : gset string := list_to_set features in
  let classes := omap (odict_get _JSI_HANDLERS)
                   (filter_jsi_keys _JSI_HANDLERS (Some fs) (Some only_include)
                                    (Some exclude)) in
  fs ⊆ _ALL_FEATURES
  ∧ classes ≠ []
  ∧ instantiated tr = cls_JSI_KEY <$> classes
  ∧ (∃ hs, jsi_class <$> hs = classes
           ∧ _handler_dict self = foldl (λ a h, odict_set a (JSI_KEY h) h) [] hs)
  ∧ _features self = fs
  ∧ _is_test self = params_test dl
  ∧ _fallback_jsi self = match fallback_jsi with
                         | FallbackAll => get_jsi_keys (OfClass <$> classes)
                         | FallbackOnly l => get_jsi_keys l
                         end
  ∧ preferences self
    = [order_to_pref (OfStr <$> filter (λ k, k ∈ odict_keys _JSI_HANDLERS)
                                       (params_jsi_preference dl)) 10000;
       order_to_pref preferred_order 100] ++ _JSI_PREFERENCES.
Proof.
  unfold __init__. intros Hinit.
  apply bind_Return in Hinit as (tr1 & [] & tr2 & Hwarn & Hinit & ->).
  assert (Htr1 : instantiated tr1 = []).
  { destruct (_ && _); injection Hwarn as <-; done. }
  case_bool_decide as Hfs; simpl in Hinit; [|done].
  apply bind_Return in Hinit as (tr3 & user_prefs & tr4 & Hprefs & Hinit & ->).
  destruct (drop_invalid_prefs_filter (odict_keys _JSI_HANDLERS)
              (params_jsi_preference dl) [] ltac:(constructor)) as (tr3' & Hdrop & Htr3).
  simpl in Hdrop. rewrite Hdrop in Hprefs. injection Hprefs as <- <-.
  case_bool_decide as Hcls; [done|].
  apply bind_Return in Hinit as (tr5 & d & tr6 & Hinst & Hret & ->).
  injection Hret as <- <-.
  apply instantiate_all_spec in Hinst as (-> & hs & Hhs & ->).
  simpl. split_and!; try done.
  - clear -Hfs. intros t Ht. destruct (decide (t ∈ _ALL_FEATURES)) as [|Hout]; [done|].
    assert (Hin : t ∈ list_to_set (C:=gset string) features ∖ _ALL_FEATURES)
      by (apply elem_of_difference; done).
    rewrite Hfs in Hin. by apply not_elem_of_empty in Hin.
  - rewrite !instantiated_app, Htr1, Htr3. simpl. rewrite app_nil_r.
    apply instantiated_fmap.
  - by exists hs.
Qed.

(** Every wrapper the constructor returns has handlers with pairwise
    different keys, whatever the registry. *)
Lemma init_wrapper_wf dl url features only_include exclude jsi_params preferred_order
    fallback_jsi timeout user_agent tr self :
  __init__ sanitize_url_or_none _JSI_HANDLERS _JSI_PREFERENCES dl url features
    only_include exclude jsi_params preferred_order fallback_jsi timeout user_agent
  = (tr, Return self) →
  wrapper_wf self.
Proof.
  intros Hinit. apply init_Return in Hinit as (_ & _ & _ & (hs & _ & Hd) & _).
  unfold wrapper_wf. rewrite Hd, keyed_values_keys.
  - apply odict_fold_NoDup. constructor.
  - apply odict_fold_keyed. constructor.
Qed.

End construction_facts.

Section construction_claims.

Variable sanitize_url_or_none : string → option string.
Variable _JSI_HANDLERS : Registry.
Variable _JSI_PREFERENCES : list JSIPreference.

(** C7.  Whenever the requested features contain a tag outside the
    closed set {wasm, location, dom, cookies}, construction raises the
    "Unsupported features" error, whose message carries the whole set
    difference: it names every requested tag that is outside the closed
    set, and only those.  No backend has been instantiated by then. *)
Theorem unsupported_features_rejected dl url features only_include exclude jsi_params
    preferred_order fallback_jsi timeout user_agent :
  (∃ tag, tag ∈ features ∧ tag ∉ _ALL_FEATURES) →
  ∃ tr unsupported,
    __init__ sanitize_url_or_none _JSI_HANDLERS _JSI_PREFERENCES dl url features
      only_include exclude jsi_params preferred_order fallback_jsi timeout user_agent
    = (tr, Raise (ExtractorError [Str "Unsupported features: "; Features unsupported;
                                  Str ", allowed features: "; Features _ALL_FEATURES]))
    ∧ (∀ tag, tag ∈ unsupported ↔ tag ∈ features ∧ tag ∉ _ALL_FEATURES)
    ∧ (∀ tag, tag ∈ _ALL_FEATURES ↔ tag ∈ ["wasm"; "location"; "dom"; "cookies"])
    ∧ instantiated tr = [].
Proof.
  intros (tag & Htag & Hout). unfold __init__.
  set (warn := if _ && _ then _ else _).
  assert (Hwarn : ∃ tr1, warn = (tr1, Return tt) ∧ instantiated tr1 = []).
  { subst warn. destruct (_ && _); eexists; split; reflexivity. }
  destruct Hwarn as (tr1 & -> & Htr1).
  exists tr1, (list_to_set features ∖ _ALL_FEATURES).
  rewrite bool_decide_eq_false_2.
  2:{ intros Hempty. assert (tag ∈ (∅ : gset string)); [|set_solver].
      rewrite <- Hempty. set_solver. }
  simpl. rewrite app_nil_r. split_and!; [done| | |done].
  - intros t. set_solver.
  - intros t. unfold _ALL_FEATURES.
    rewrite !elem_of_union, !elem_of_singleton, !elem_of_cons, elem_of_nil. tauto.
Qed.

End construction_claims.

Lemma unsupported_features_rejected_witness :
  (∃ tag, tag ∈ ["dom"; "gpu"; "webgl"] ∧ tag ∉ _ALL_FEATURES)
  ∧ ∃ tr unsupported,
      __init__ (λ u, Some u) Sample.registry initial_JSI_PREFERENCES Sample.dl
        "" ["dom"; "gpu"; "webgl"] [] [] ∅ [] FallbackAll 10 None
      = (tr, Raise (ExtractorError [Str "Unsupported features: "; Features unsupported;
                                    Str ", allowed features: "; Features _ALL_FEATURES]))
      ∧ (∀ tag, tag ∈ unsupported ↔ tag ∈ ["dom"; "gpu"; "webgl"] ∧ tag ∉ _ALL_FEATURES)
      ∧ (∀ tag, tag ∈ _ALL_FEATURES ↔ tag ∈ ["wasm"; "location"; "dom"; "cookies"])
      ∧ instantiated tr = [].
Proof.
  assert (H : ∃ tag, tag ∈ ["dom"; "gpu"; "webgl"] ∧ tag ∉ _ALL_FEATURES).
  { exists "gpu". split.
    - apply (bool_decide_unpack _). by vm_compute.
    - apply (bool_decide_unpack _). by vm_compute. }
  split; [exact H|].
  exact (unsupported_features_rejected (λ u, Some u) Sample.registry
           initial_JSI_PREFERENCES Sample.dl "" ["dom"; "gpu"; "webgl"] [] [] ∅ []
           FallbackAll 10 None H).
Defined.

(** ** The dispatch loop *)

Section dispatch_loop_facts.

Variable self : JSIWrapper.
Variable method_name : string.
Variable args : list PyVal.
Variable kwargs : Kwargs.

Local Abbreviation loop := (dispatch_loop self method_name args kwargs).

(** One case per way an iteration of the loop can go. *)
Ltac loop_step h IH :=
  cbn [dispatch_loop];
  let Hav := fresh "Hav" in
  let Hget := fresh "Hget" in
  let Hcall := fresh "Hcall" in
  let Hfb := fresh "Hfb" in
  let Htest := fresh "Htest" in
  let Hrest := fresh "Hrest" in
  destruct (is_available h) eqn:Hav; cbn [negb];
  [ destruct (getattr h method_name) as [?method|] eqn:Hget;
    [ destruct (method args kwargs) as [?v|?e|?e] eqn:Hcall;
      [ | case_bool_decide as Hfb;
          [ | match goal with
              | |- context [dispatch_loop ?s ?m ?a ?k ?l ?u ?x] =>
                  destruct (dispatch_loop s m a k l u x) as [?tr ?r] eqn:Hrest
              end ]
        | ]
    | ]
  | destruct (_is_test self) eqn:Htest;
    [ | match goal with
        | |- context [dispatch_loop ?s ?m ?a ?k ?l ?u ?x] =>
            destruct (dispatch_loop s m a k l u x) as [?tr ?r] eqn:Hrest
        end ] ].

Lemma dispatch_loop_unavailable h rest U E :
  is_available h = false → _is_test self = false →
  loop (h :: rest) U E
  = let '(tr, r) := loop rest (U ++ [JSI_NAME h]) E in
    (EvIsAvailable (JSI_KEY h) :: tr, r).
Proof. intros Hav Htest. cbn [dispatch_loop]. by rewrite Hav, Htest. Qed.



(** The loop over [pre ++ post] is the loop over [pre] and, if that one
    runs out of handlers, the loop over [post] from the lists it left. *)
Lemma dispatch_loop_app pre post U E :
  loop (pre ++ post) U E
  = match loop pre U E with
    | (tr, LoopExhausted U' E') =>
        let '(tr', r) := loop post U' E' in (tr ++ tr', r)
    | other => other
    end.
Proof.
  revert U E. induction pre as [|h pre IH]; intros U E.
  - simpl. by destruct (loop post U E).
  - rewrite <- app_comm_cons. loop_step h IH; try done.
    + rewrite IH in Hrest.
      destruct (loop pre U (E ++ [(h, e)])) as [tr1 [v1|e1|U1 E1]];
        try (by injection Hrest as <- <-).
      destruct (loop post U1 E1) as [tr2 r2]. by injection Hrest as <- <-.
    + rewrite IH in Hrest.
      destruct (loop pre (U ++ [JSI_NAME h]) E) as [tr1 [v1|e1|U1 E1]];
        try (by injection Hrest as <- <-).
      destruct (loop post U1 E1) as [tr2 r2]. by injection Hrest as <- <-.
Qed.

(** If every handler is unavailable and the wrapper is not in test
    mode, the loop probes each handler once, calls none and ends with
    all their names in [unavailable]. *)
Lemma dispatch_loop_all_unavailable hs U E :
  _is_test self = false →
  Forall (λ h, is_available h = false) hs →
  loop hs U E
  = ((λ h, EvIsAvailable (JSI_KEY h)) <$> hs, LoopExhausted (U ++ (JSI_NAME <$> hs)) E).
Proof.
  intros Htest Hall. revert U. induction Hall as [|h hs Hav _ IH]; intros U.
  - simpl. by rewrite app_nil_r.
  - rewrite dispatch_loop_unavailable, IH by done.
    rewrite fmap_cons. by rewrite <- app_assoc.
Qed.

(** When the loop runs out of handlers, [unavailable] has received the
    names of the unavailable handlers and [exceptions] one pair per
    available handler, both in order. *)
Lemma dispatch_loop_exhausted hs U0 E0 tr U E :
  loop hs U0 E0 = (tr, LoopExhausted U E) →
  U = U0 ++ (JSI_NAME <$> filter (λ h, is_available h = false) hs)
  ∧ E.*1 = E0.*1 ++ filter (λ h, is_available h = true) hs.
Proof.
  revert U0 E0 tr. induction hs as [|h hs IH]; intros U0 E0 tr0.
  { simpl. intros [= <- <- <-]. by rewrite !app_nil_r. }
  loop_step h IH; intros [= <- ->].
  - apply IH in Hrest as [-> ->].
    rewrite filter_cons_False by (rewrite Hav; done).
    rewrite filter_cons_True by done.
    split; [done|]. rewrite fmap_app. simpl. by rewrite <- app_assoc.
  - apply IH in Hrest as [-> ->].
    rewrite filter_cons_True by done.
    rewrite filter_cons_False by (rewrite Hav; done).
    split; [|done]. rewrite fmap_cons. by rewrite <- app_assoc.
Qed.

(** A run of the loop: the handlers it has touched are a prefix [pre]
    of the list, probed in that order; only probed handlers are called;
    a [return] comes from the last handler of the prefix, after every
    handler before it was unavailable or raised. *)
Lemma dispatch_loop_run hs U E tr r :
  loop hs U E = (tr, r) →
  ∃ pre post,
    hs = pre ++ post
    ∧ probed tr = JSI_KEY <$> pre
    ∧ called tr `sublist_of` probed tr
    ∧ instantiated tr = []
    ∧ match r with
      | LoopReturn v =>
          ∃ pre' h, pre = pre' ++ [h]
                    ∧ succeeds method_name args kwargs h v
                    ∧ Forall (fails_softly method_name args kwargs) pre'
                    ∧ last (called tr) = Some (JSI_KEY h)
      | LoopRaise _ => True
      | LoopExhausted _ _ => post = []
      end.
Proof.
  revert U E tr r. induction hs as [|h hs IH]; intros U E tr0 r0.
  { simpl. intros [= <- <-]. by exists [], []. }
  loop_step h IH; intros [= <- <-].
  - exists [h], hs. split_and!; try done.
    exists [], h. split_and!; try done. split; [done|]. by exists method.
  - by exists [h], hs.
  - apply IH in Hrest as (pre & post & -> & Hp & Hc & Hi & Hr).
    exists (h :: pre), post. split_and!; try done.
    + cbn. fold (probed tr). by rewrite Hp.
    + cbn. by apply sublist_skip.
    + destruct r; try done. destruct Hr as (pre' & h' & -> & Hs & Hf & Hl).
      exists (h :: pre'), h'. split_and!; try done.
      * constructor; [|done]. right. by exists method, e.
      * cbn. rewrite last_cons. fold (called tr). by rewrite Hl.
  - by exists [h], hs.
  - exists [h], hs. split_and!; try done. cbn. apply sublist_nil_l.
  - exists [h], hs. split_and!; try done. cbn. apply sublist_nil_l.
  - apply IH in Hrest as (pre & post & -> & Hp & Hc & Hi & Hr).
    exists (h :: pre), post. split_and!; try done.
    + cbn. fold (probed tr). by rewrite Hp.
    + cbn. by apply sublist_cons.
    + destruct r; try done. destruct Hr as (pre' & h' & -> & Hs & Hf & Hl).
      exists (h :: pre'), h'. split_and!; try done.
      constructor; [|done]. by left.
Qed.

(** ** The walk of the loop *)

Lemma succeeds_inj h v v' :
  succeeds method_name args kwargs h v → succeeds method_name args kwargs h v' → v = v'.
Proof.
  intros (_ & m & Hm & Hv) (_ & m' & Hm' & Hv'). congruence.
Qed.

Lemma falls_through_not_succeeds h v :
  falls_through self method_name args kwargs h →
  ¬ succeeds method_name args kwargs h v.
Proof.
  intros [[Hav _]|(_ & m & e & Hm & He & _)] (Hav' & m' & Hm' & Hv); congruence.
Qed.

Lemma falls_through_fails_softly h :
  falls_through self method_name args kwargs h →
  fails_softly method_name args kwargs h.
Proof.
  intros [[Hav _]|(_ & m & e & Hm & He & _)]; [by left|]. right. by exists m, e.
Qed.

(** How the loop ends decides how far it walked: every handler it
    passed fell through, and the one it stopped at did not. *)
Lemma dispatch_loop_walk hs U E tr r :
  loop hs U E = (tr, r) →
  ∃ pre post,
    hs = pre ++ post
    ∧ probed tr = JSI_KEY <$> pre
    ∧ called tr = JSI_KEY <$> filter (λ h, is_available h && has_method method_name h) pre
    ∧ match r with
      | LoopReturn v =>
          ∃ pre' h, pre = pre' ++ [h]
                    ∧ Forall (falls_through self method_name args kwargs) pre'
                    ∧ succeeds method_name args kwargs h v
                    ∧ last tr = Some (EvCall (JSI_KEY h) method_name)
      | LoopRaise _ =>
          ∃ pre' h, pre = pre' ++ [h]
                    ∧ Forall (falls_through self method_name args kwargs) pre'
                    ∧ ¬ falls_through self method_name args kwargs h
                    ∧ ∀ v, ¬ succeeds method_name args kwargs h v
      | LoopExhausted _ _ =>
          post = [] ∧ Forall (falls_through self method_name args kwargs) pre
      end.
Proof.
  revert U E tr r. induction hs as [|h hs IH]; intros U E tr0 r0.
  { simpl. intros [= <- <-]. by exists [], []. }
  assert (Hyes : is_available h = true → is_Some (getattr h method_name) →
                 ∀ l, filter (λ h, is_available h && has_method method_name h) (h :: l)
                      = h :: filter (λ h, is_available h && has_method method_name h) l).
  { intros Ha Hm l. apply filter_cons_True. rewrite Ha. cbn.
    by apply bool_decide_pack. }
  assert (Hno : is_available h = false ∨ getattr h method_name = None →
                ∀ l, filter (λ h, is_available h && has_method method_name h) (h :: l)
                     = filter (λ h, is_available h && has_method method_name h) l).
  { intros Hor l. apply filter_cons_False. intros [Ha Hm]%andb_prop_elim.
    destruct Hor as [Hf|Hn].
    - rewrite Hf in Ha. done.
    - apply bool_decide_unpack in Hm. rewrite Hn in Hm. by destruct Hm. }
  loop_step h IH; intros [= <- <-].
  - (* the call returns *)
    exists [h], hs. split_and!; try done.
    { by rewrite Hyes. }
    exists [], h. split_and!; try done. split; [done|]. by exists method.
  - (* an ExtractorError of a handler that may not fall back *)
    exists [h], hs. split_and!; try done.
    { by rewrite Hyes. }
    exists [], h. split_and!; try done.
    + intros [[? _]|(_ & m & e' & Hm & _ & Hin)]; [congruence|done].
    + intros v (_ & m & Hm & Hv). congruence.
  - (* an ExtractorError of a handler that may fall back *)
    assert (Hft : falls_through self method_name args kwargs h).
    { right. split; [done|]. by exists method, e. }
    apply IH in Hrest as (pre & post & -> & Hp & Hc & Hr).
    exists (h :: pre), post. split_and!; try done.
    + cbn. fold (probed tr). by rewrite Hp.
    + rewrite Hyes by done. cbn. fold (called tr). by rewrite Hc.
    + destruct r.
      * destruct Hr as (pre' & h' & -> & Hf & Hs & Hl).
        exists (h :: pre'), h'. split_and!; try done; [by constructor|].
        cbn [app]. rewrite !last_cons, Hl. done.
      * destruct Hr as (pre' & h' & -> & Hf & Hn & Hs).
        exists (h :: pre'), h'. split_and!; try done. by constructor.
      * destruct Hr as [-> Hf]. split; [done|]. by constructor.
  - (* another exception *)
    exists [h], hs. split_and!; try done.
    { by rewrite Hyes. }
    exists [], h. split_and!; try done.
    + intros [[? _]|(_ & m & e' & Hm & He & _)]; congruence.
    + intros v (_ & m & Hm & Hv). congruence.
  - (* the method is missing *)
    exists [h], hs. split_and!; try done.
    { rewrite Hno by (by right). done. }
    exists [], h. split_and!; try done.
    + intros [[? _]|(_ & m & e' & Hm & _)]; congruence.
    + intros v (_ & m & Hm & _). congruence.
  - (* unavailable in test mode *)
    exists [h], hs. split_and!; try done.
    { rewrite Hno by (by left). done. }
    exists [], h. split_and!; try done.
    + intros [[_ ?]|(? & _)]; congruence.
    + intros v (? & _). congruence.
  - (* unavailable outside test mode *)
    assert (Hft : falls_through self method_name args kwargs h) by (by left).
    apply IH in Hrest as (pre & post & -> & Hp & Hc & Hr).
    exists (h :: pre), post. split_and!; try done.
    + cbn. fold (probed tr). by rewrite Hp.
    + rewrite Hno by (by left). cbn. fold (called tr). done.
    + destruct r.
      * destruct Hr as (pre' & h' & -> & Hf & Hs & Hl).
        exists (h :: pre'), h'. split_and!; try done; [by constructor|].
        rewrite last_cons, Hl. done.
      * destruct Hr as (pre' & h' & -> & Hf & Hn & Hs).
        exists (h :: pre'), h'. split_and!; try done. by constructor.
      * destruct Hr as [-> Hf]. split; [done|]. by constructor.
Qed.

End dispatch_loop_facts.

(** ** Sorting *)

Section sorting.
Context {A : Type} (key : A → Z).

Lemma insert_desc_perm (x : A) (l : list A) : insert_desc key x l ≡ₚ x :: l.
Proof.
  induction l as [|y l IH]; simpl; [done|].
  case_decide; [done|]. rewrite IH. apply Permutation_swap.
Qed.

Lemma sorted_reverse_perm (l : list A) : sorted_reverse key l ≡ₚ l.
Proof.
  unfold sorted_reverse. induction l as [|x l IH]; simpl; [done|].
  by rewrite insert_desc_perm, IH.
Qed.

Lemma insert_desc_sorted (x : A) (l : list A) :
  StronglySorted (λ a b, (key b ≤ key a)%Z) l →
  StronglySorted (λ a b, (key b ≤ key a)%Z) (insert_desc key x l).
Proof.
  induction 1 as [|y l Hsorted IH Hy]; simpl.
  - by repeat constructor.
  - case_decide as Hle.
    + constructor; [by constructor|]. constructor; [done|].
      eapply Forall_impl; [exact Hy|]. simpl. intros z Hz. lia.
    + constructor; [done|]. rewrite insert_desc_perm. constructor; [lia|done].
Qed.

Lemma sorted_reverse_sorted (l : list A) :
  StronglySorted (λ a b, (key b ≤ key a)%Z) (sorted_reverse key l).
Proof.
  unfold sorted_reverse. induction l as [|x l IH]; simpl; [constructor|].
  by apply insert_desc_sorted.
Qed.

Lemma StronglySorted_descending (l : list A) :
  StronglySorted (λ a b, (key b ≤ key a)%Z) l → descending key l.
Proof.
  induction 1 as [|x l _ IH Hx]; intros i j a b Hij Hi Hj.
  - by rewrite lookup_nil in Hi.
  - destruct j as [|j]; [lia|]. destruct i as [|i]; simpl in *.
    + injection Hi as <-. by eapply (Forall_lookup_1 _ _ _ _ Hx).
    + eapply (IH i j); [lia|done..].
Qed.

(** The sort is in descending order of the key. *)
Lemma sorted_reverse_descending (l : list A) : descending key (sorted_reverse key l).
Proof. apply StronglySorted_descending, sorted_reverse_sorted. Qed.

(** The sort is stable: the elements of any one key keep their order. *)
Lemma insert_desc_filter (k : Z) (x : A) (l : list A) :
  filter (λ a, key a = k) (insert_desc key x l)
  = filter (λ a, key a = k) (x :: l).
Proof.
  induction l as [|y l IH]; simpl; [done|].
  case_decide as Hle; [done|].
  rewrite filter_cons, IH, !filter_cons.
  destruct (decide (key y = k)), (decide (key x = k)); try done. lia.
Qed.

Lemma sorted_reverse_stable (k : Z) (l : list A) :
  filter (λ a, key a = k) (sorted_reverse key l) = filter (λ a, key a = k) l.
Proof.
  unfold sorted_reverse. induction l as [|x l IH]; simpl; [done|].
  by rewrite insert_desc_filter, !filter_cons, IH.
Qed.

End sorting.

Lemma insert_desc_ext {A} (key key' : A → Z) (x : A) (l : list A) :
  key x = key' x → Forall (λ a, key a = key' a) l →
  insert_desc key x l = insert_desc key' x l.
Proof.
  intros Hx. induction 1 as [|y l Hy _ IH]; simpl; [done|].
  rewrite Hx, Hy, IH. done.
Qed.

Lemma sorted_reverse_ext {A} (key key' : A → Z) (l : list A) :
  Forall (λ a, key a = key' a) l → sorted_reverse key l = sorted_reverse key' l.
Proof.
  unfold sorted_reverse. induction 1 as [|x l Hx Hl IH]; simpl; [done|].
  rewrite IH. apply insert_desc_ext; [done|].
  fold (sorted_reverse key' l). by rewrite sorted_reverse_perm.
Qed.

(** ** The combined preference *)

(** The sum does not depend on the order in which the set of scorers is
    iterated. *)
Lemma foldl_add_acc (a : Z) (l : list Z) :
  foldl Z.add a l = (a + foldr Z.add 0 l)%Z.
Proof.
  revert a. induction l as [|x l IH]; intros a; simpl; [lia|]. rewrite IH. lia.
Qed.

Lemma sum_Z_foldr (l : list Z) : sum_Z l = foldr Z.add 0%Z l.
Proof. unfold sum_Z. rewrite foldl_add_acc. lia. Qed.

Lemma sum_Z_cons (x : Z) (l : list Z) : sum_Z (x :: l) = (x + sum_Z l)%Z.
Proof. by rewrite !sum_Z_foldr. Qed.

Lemma sum_Z_app (l1 l2 : list Z) : sum_Z (l1 ++ l2) = (sum_Z l1 + sum_Z l2)%Z.
Proof.
  induction l1 as [|x l1 IH]; [done|].
  rewrite <- app_comm_cons, !sum_Z_cons, IH. lia.
Qed.

Lemma sum_Z_perm (l1 l2 : list Z) : l1 ≡ₚ l2 → sum_Z l1 = sum_Z l2.
Proof.
  induction 1 as [|x l1 l2 _ IH|x y l|l1 l2 l3 _ IH1 _ IH2];
    rewrite ?sum_Z_cons in *; try done; lia.
Qed.

Lemma combined_preference_perm self self' method_name args kwargs h :
  preferences self ≡ₚ preferences self' →
  combined_preference self method_name args kwargs h
  = combined_preference self' method_name args kwargs h.
Proof. intros Hp. unfold combined_preference. apply sum_Z_perm. by rewrite Hp. Qed.

(** ** Ranking *)

Lemma preference_table_other (score : JSI → Z) (hs : list JSI) (d : gmap string Z)
    (k : string) :
  k ∉ JSI_KEY <$> hs →
  foldl (λ d h, <[JSI_KEY h := score h]> d) d hs !! k = d !! k.
Proof.
  revert d. induction hs as [|x hs IH]; intros d Hk; simpl; [done|].
  rewrite fmap_cons in Hk. apply not_elem_of_cons in Hk as [? ?].
  rewrite IH by done. by rewrite lookup_insert_ne.
Qed.

(** With pairwise different keys, the table [preferences] of
    [_get_handlers] holds the score of each handler under its key. *)
Lemma preference_table_lookup (score : JSI → Z) (hs : list JSI) (d : gmap string Z)
    (h : JSI) :
  NoDup (JSI_KEY <$> hs) → h ∈ hs →
  foldl (λ d h, <[JSI_KEY h := score h]> d) d hs !! JSI_KEY h = Some (score h).
Proof.
  revert d. induction hs as [|x hs IH]; intros d Hnd Hin; simpl.
  - by apply not_elem_of_nil in Hin.
  - rewrite fmap_cons in Hnd. apply NoDup_cons in Hnd as [Hx Hnd].
    apply elem_of_cons in Hin as [->|Hin]; [|by apply IH].
    rewrite preference_table_other by done. apply lookup_insert_eq.
Qed.

Lemma candidates_NoDup (self : JSIWrapper) (method_name : string) :
  wrapper_wf self →
  NoDup (JSI_KEY <$> filter (λ h, has_method method_name h)
                            (odict_values (_handler_dict self))).
Proof.
  intros Hwf. eapply sublist_NoDup; [exact Hwf|].
  apply fmap_sublist, sublist_filter.
Qed.

(** [_get_handlers] returns the handlers that have the method, sorted by
    their combined preference. *)
Lemma get_handlers_sorted (self : JSIWrapper) (method_name : string)
    (args : list PyVal) (kwargs : Kwargs) :
  wrapper_wf self →
  filter (λ h, has_method method_name h) (odict_values (_handler_dict self)) ≠ [] →
  _get_handlers self method_name args kwargs
  = Return (sorted_reverse (combined_preference self method_name args kwargs)
              (filter (λ h, has_method method_name h)
                      (odict_values (_handler_dict self)))).
Proof.
  intros Hwf Hne. unfold _get_handlers.
  rewrite bool_decide_eq_false_2 by done. f_equal.
  apply sorted_reverse_ext, Forall_forall. intros h Hh.
  rewrite preference_table_lookup; [done| |done].
  by apply candidates_NoDup.
Qed.

(** Whatever the keys, the result is a permutation of the candidates. *)
Lemma get_handlers_perm (self : JSIWrapper) (method_name : string)
    (args : list PyVal) (kwargs : Kwargs) (handlers : list JSI) :
  _get_handlers self method_name args kwargs = Return handlers →
  handlers ≡ₚ filter (λ h, has_method method_name h) (odict_values (_handler_dict self))
  ∧ handlers ≠ [].
Proof.
  unfold _get_handlers. case_bool_decide as Hne; [done|]. intros [= <-].
  split; [apply sorted_reverse_perm|].
  intros Hnil. apply Hne. apply Permutation_nil_r. rewrite <- Hnil.
  symmetry. apply sorted_reverse_perm.
Qed.

(** ** C1: candidates are tried in descending score order, first success wins *)

(** The first element of a list that does not satisfy [P] is at one
    place only. *)
Lemma first_stop_unique {A} (P : A → Prop) (l1 l2 r1 r2 : list A) (x y : A) :
  l1 ++ x :: r1 = l2 ++ y :: r2 →
  Forall P l1 → Forall P l2 → ¬ P x → ¬ P y →
  l1 = l2 ∧ x = y ∧ r1 = r2.
Proof.
  revert l2. induction l1 as [|a l1 IH]; intros [|b l2] Heq H1 H2 Hx Hy; simpl in Heq.
  - by injection Heq as -> ->.
  - injection Heq as -> _. apply Forall_cons in H2 as [? _]. done.
  - injection Heq as -> _. apply Forall_cons in H1 as [? _]. done.
  - injection Heq as -> Heq.
    apply Forall_cons in H1 as [_ H1]. apply Forall_cons in H2 as [_ H2].
    destruct (IH l2 Heq H1 H2 Hx Hy) as (-> & -> & ->). done.
Qed.

Lemma filter_available_with_method (method_name : string) (l : list JSI) :
  Forall (λ h, has_method method_name h) l →
  filter (λ h, is_available h && has_method method_name h) l
  = filter (λ h, is_available h) l.
Proof.
  induction 1 as [|h l Hh _ IH]; [done|].
  destruct (is_available h) eqn:Hav.
  - rewrite !filter_cons_True by (by rewrite Hav). by rewrite IH.
  - rewrite !filter_cons_False by (rewrite Hav; cbn; tauto). done.
Qed.

(** C1.  In every dispatch of an operation that some handler implements,
    the handlers that implement it are ranked in descending order of
    their combined preference score, and the loop walks a prefix of
    that ranking in order, starting with the first: the probed handlers
    are that prefix, the called ones are its available handlers in the
    same order, every handler before the last of the prefix fell
    through (it was unavailable, or raised an error it may fall back
    from), and no handler after the prefix is probed or called.  A
    called handler whose call succeeds ends the dispatch: its value is
    the result, its call is the last event and it is the last handler
    of the prefix, so at most one call of a dispatch succeeds.  The
    first handler of the ranking that succeeds after handlers that all
    fall through is reached, and its value is returned.  When the
    dispatch returns a value, the prefix ends with the handler whose
    call returned it, that call is the last one, and every handler
    before it was unavailable or raised. *)
Theorem dispatch_in_preference_order (self : JSIWrapper) (method_name : string)
    (args : list PyVal) (kwargs : Kwargs) (tr : list Event) (res : Result PyVal) :
  wrapper_wf self →
  filter (λ h, has_method method_name h) (odict_values (_handler_dict self)) ≠ [] →
  _dispatch_request self method_name args kwargs = (tr, res) →
  ∃ handlers pre post,
    _get_handlers self method_name args kwargs = Return handlers
    ∧ handlers ≡ₚ filter (λ h, has_method method_name h)
                         (odict_values (_handler_dict self))
    ∧ descending (combined_preference self method_name args kwargs) handlers
    ∧ handlers = pre ++ post
    ∧ probed tr = JSI_KEY <$> pre
    ∧ called tr `sublist_of` probed tr
    ∧ (∀ h, h ∈ post → (JSI_KEY h ∉ probed tr) ∧ (JSI_KEY h ∉ called tr))
    ∧ (∀ v, res = Return v →
         ∃ pre' h, pre = pre' ++ [h]
                   ∧ succeeds method_name args kwargs h v
                   ∧ Forall (fails_softly method_name args kwargs) pre'
                   ∧ last (called tr) = Some (JSI_KEY h))
    ∧ called tr = JSI_KEY <$> filter (λ h, is_available h) pre
    ∧ (∃ pre' h, pre = pre' ++ [h]
                 ∧ Forall (falls_through self method_name args kwargs) pre'
                 ∧ (falls_through self method_name args kwargs h → post = []))
    ∧ (∀ h v, h ∈ handlers → JSI_KEY h ∈ called tr →
              succeeds method_name args kwargs h v →
              res = Return v
              ∧ last tr = Some (EvCall (JSI_KEY h) method_name)
              ∧ ∃ pre', pre = pre' ++ [h])
    ∧ (∀ h1 h2 v1 v2, h1 ∈ handlers → h2 ∈ handlers →
                      JSI_KEY h1 ∈ called tr → JSI_KEY h2 ∈ called tr →
                      succeeds method_name args kwargs h1 v1 →
                      succeeds method_name args kwargs h2 v2 →
                      h1 = h2 ∧ v1 = v2)
    ∧ (∀ before h after v,
         handlers = before ++ h :: after →
         Forall (falls_through self method_name args kwargs) before →
         succeeds method_name args kwargs h v →
         res = Return v ∧ pre = before ++ [h] ∧ post = after).
Proof.
  intros Hwf Hne. unfold _dispatch_request.
  rewrite (get_handlers_sorted _ _ _ _ Hwf Hne).
  set (score := combined_preference self method_name args kwargs).
  set (candidates := filter _ _) in *.
  destruct (dispatch_loop _ _ _ _ _ _ _) as [tr' r] eqn:Hloop. intros Hres.
  apply dispatch_loop_walk in Hloop as (pre & post & Hsplit & Hp & Hc & Hr).
  assert (tr' = tr) as -> by (destruct r; by injection Hres).
  exists (sorted_reverse score candidates), pre, post.
  assert (Hnd : NoDup (JSI_KEY <$> (pre ++ post))).
  { rewrite <- Hsplit, sorted_reverse_perm. by apply candidates_NoDup. }
  assert (Hmeth : Forall (λ h, has_method method_name h) pre).
  { apply Forall_forall. intros h Hh.
    assert (Hin : h ∈ sorted_reverse score candidates).
    { rewrite Hsplit. apply elem_of_app. by left. }
    rewrite sorted_reverse_perm in Hin.
    by apply list_elem_of_filter in Hin as [? _]. }
  assert (Hcalled : called tr = JSI_KEY <$> filter (λ h, is_available h) pre).
  { by rewrite Hc, filter_available_with_method. }
  assert (Hsub : called tr `sublist_of` probed tr).
  { rewrite Hcalled, Hp. apply fmap_sublist, sublist_filter. }
  assert (Hpost : ∀ h, h ∈ post → (JSI_KEY h ∉ probed tr) ∧ (JSI_KEY h ∉ called tr)).
  { intros h Hh. rewrite fmap_app in Hnd. apply NoDup_app in Hnd as (_ & Hdisj & _).
    assert (Hk : JSI_KEY h ∉ probed tr).
    { rewrite Hp. intros Hin. apply (Hdisj _ Hin). by apply list_elem_of_fmap_2. }
    split; [done|]. intros Hin. apply Hk. by eapply elem_of_sublist. }
  assert (Hpre : ∀ h, h ∈ sorted_reverse score candidates →
                      JSI_KEY h ∈ called tr → h ∈ pre).
  { intros h Hh Hk. rewrite Hsplit in Hh. apply elem_of_app in Hh as [?|Hh]; [done|].
    by destruct (Hpost h Hh) as [_ ?]. }
  assert (Hends : ∀ h v, h ∈ pre → succeeds method_name args kwargs h v →
                         res = Return v
                         ∧ last tr = Some (EvCall (JSI_KEY h) method_name)
                         ∧ ∃ pre', pre = pre' ++ [h]).
  { intros h v Hh Hs. destruct r as [v0|e0|U0 E0].
    - destruct Hr as (pre' & h0 & -> & Hf & Hs0 & Hl).
      apply elem_of_app in Hh as [Hh|Hh].
      { rewrite Forall_forall in Hf.
        by destruct (falls_through_not_succeeds _ _ _ _ _ _ (Hf _ Hh) Hs). }
      apply list_elem_of_singleton in Hh as ->.
      rewrite (succeeds_inj _ _ _ _ _ _ Hs Hs0).
      injection Hres as <-. split_and!; [done..|]. by exists pre'.
    - destruct Hr as (pre' & h0 & -> & Hf & _ & Hs0).
      apply elem_of_app in Hh as [Hh|Hh].
      { rewrite Forall_forall in Hf.
        by destruct (falls_through_not_succeeds _ _ _ _ _ _ (Hf _ Hh) Hs). }
      apply list_elem_of_singleton in Hh as ->. by destruct (Hs0 v).
    - destruct Hr as [_ Hf]. rewrite Forall_forall in Hf.
      by destruct (falls_through_not_succeeds _ _ _ _ _ _ (Hf _ Hh) Hs). }
  split_and!; try done.
  - apply sorted_reverse_perm.
  - apply sorted_reverse_descending.
  - intros v ->. destruct r as [v0|e0|U0 E0]; try done. injection Hres as ->.
    destruct Hr as (pre' & h & -> & Hf & Hs & Hl).
    exists pre', h. split_and!; try done.
    + eapply Forall_impl; [exact Hf|]. apply falls_through_fails_softly.
    + rewrite Hcalled, filter_app, fmap_app.
      destruct Hs as [Hav Hm]. rewrite (filter_cons_True _ h) by (by rewrite Hav).
      rewrite filter_nil. cbn. by rewrite last_snoc.
  - destruct r as [v0|e0|U0 E0].
    + destruct Hr as (pre' & h & -> & Hf & Hs & _). exists pre', h.
      split_and!; try done. intros Hft.
      by destruct (falls_through_not_succeeds _ _ _ _ _ _ Hft Hs).
    + destruct Hr as (pre' & h & -> & Hf & Hn & _). exists pre', h.
      split_and!; try done.
    + destruct Hr as [-> Hf]. rewrite app_nil_r in Hsplit.
      destruct (exists_last (l := pre)) as (pre' & h & ->).
      { intros ->. apply Hne. apply Permutation_nil_r. rewrite <- Hsplit.
        symmetry. apply sorted_reverse_perm. }
      apply Forall_app in Hf as [Hf _]. by exists pre', h.
  - intros h v Hh Hk Hs. apply Hends; [|done]. by apply Hpre.
  - intros h1 h2 v1 v2 Hh1 Hh2 Hk1 Hk2 Hs1 Hs2.
    destruct (Hends h1 v1 (Hpre _ Hh1 Hk1) Hs1) as (Hr1 & _ & p1 & Hp1).
    destruct (Hends h2 v2 (Hpre _ Hh2 Hk2) Hs2) as (Hr2 & _ & p2 & Hp2).
    rewrite Hp1 in Hp2. apply app_inj_tail in Hp2 as [_ ->].
    split; [done|]. congruence.
  - intros before h after v Hb Hf Hs. rewrite Hsplit in Hb.
    destruct r as [v0|e0|U0 E0].
    + destruct Hr as (pre' & h0 & -> & Hf0 & Hs0 & _).
      rewrite <- app_assoc in Hb. cbn in Hb.
      destruct (first_stop_unique _ _ _ _ _ _ _ Hb Hf0 Hf) as (-> & -> & ->).
      * intros Hft. by destruct (falls_through_not_succeeds _ _ _ _ _ _ Hft Hs0).
      * intros Hft. by destruct (falls_through_not_succeeds _ _ _ _ _ _ Hft Hs).
      * rewrite (succeeds_inj _ _ _ _ _ _ Hs Hs0). by injection Hres as <-.
    + destruct Hr as (pre' & h0 & -> & Hf0 & Hn0 & Hs0).
      rewrite <- app_assoc in Hb. cbn in Hb.
      destruct (first_stop_unique _ _ _ _ _ _ _ Hb Hf0 Hf) as (-> & -> & ->).
      * done.
      * intros Hft. by destruct (falls_through_not_succeeds _ _ _ _ _ _ Hft Hs).
      * by destruct (Hs0 v).
    + destruct Hr as [-> Hf0]. rewrite app_nil_r in Hb. rewrite Hb in Hf0.
      apply Forall_app in Hf0 as [_ Hf0]. apply Forall_cons in Hf0 as [Hft _].
      by destruct (falls_through_not_succeeds _ _ _ _ _ _ Hft Hs).
Qed.

Lemma dispatch_in_preference_order_witness :
  let self := Sample.ranked false in
  let tr := [EvIsAvailable "Gamma"; EvIsAvailable "Delta"; EvCall "Delta" "execute";
             EvIsAvailable "Beta"; EvCall "Beta" "execute"] in
  wrapper_wf self
  ∧ filter (λ h, has_method "execute" h) (odict_values (_handler_dict self)) ≠ []
  ∧ _dispatch_request self "execute" [] ∅ = (tr, Return (PStr "beta"))
  ∧ ∃ handlers pre post,
      _get_handlers self "execute" [] ∅ = Return handlers
      ∧ handlers ≡ₚ filter (λ h, has_method "execute" h)
                           (odict_values (_handler_dict self))
      ∧ descending (combined_preference self "execute" [] ∅) handlers
      ∧ handlers = pre ++ post
      ∧ probed tr = JSI_KEY <$> pre
      ∧ called tr `sublist_of` probed tr
      ∧ (∀ h, h ∈ post → (JSI_KEY h ∉ probed tr) ∧ (JSI_KEY h ∉ called tr))
      ∧ (∀ v, Return (PStr "beta") = Return v →
           ∃ pre' h, pre = pre' ++ [h]
                     ∧ succeeds "execute" [] ∅ h v
                     ∧ Forall (fails_softly "execute" [] ∅) pre'
                     ∧ last (called tr) = Some (JSI_KEY h))
      ∧ called tr = JSI_KEY <$> filter (λ h, is_available h) pre
      ∧ (∃ pre' h, pre = pre' ++ [h]
                   ∧ Forall (falls_through self "execute" [] ∅) pre'
                   ∧ (falls_through self "execute" [] ∅ h → post = []))
      ∧ (∀ h v, h ∈ handlers → JSI_KEY h ∈ called tr →
                succeeds "execute" [] ∅ h v →
                Return (PStr "beta") = Return v
                ∧ last tr = Some (EvCall (JSI_KEY h) "execute")
                ∧ ∃ pre', pre = pre' ++ [h])
      ∧ (∀ h1 h2 v1 v2, h1 ∈ handlers → h2 ∈ handlers →
                        JSI_KEY h1 ∈ called tr → JSI_KEY h2 ∈ called tr →
                        succeeds "execute" [] ∅ h1 v1 →
                        succeeds "execute" [] ∅ h2 v2 →
                        h1 = h2 ∧ v1 = v2)
      ∧ (∀ before h after v,
           handlers = before ++ h :: after →
           Forall (falls_through self "execute" [] ∅) before →
           succeeds "execute" [] ∅ h v →
           Return (PStr "beta") = Return v ∧ pre = before ++ [h] ∧ post = after).
Proof.
  assert (Hwf : wrapper_wf (Sample.ranked false)).
  { apply (bool_decide_unpack _). by vm_compute. }
  assert (Hne : filter (λ h, has_method "execute" h)
                  (odict_values (_handler_dict (Sample.ranked false))) ≠ []).
  { by vm_compute. }
  assert (Hrun : _dispatch_request (Sample.ranked false) "execute" [] ∅
                 = ([EvIsAvailable "Gamma"; EvIsAvailable "Delta";
                     EvCall "Delta" "execute"; EvIsAvailable "Beta";
                     EvCall "Beta" "execute"], Return (PStr "beta"))).
  { by vm_compute. }
  split; [exact Hwf|]. split; [exact Hne|]. split; [exact Hrun|].
  exact (dispatch_in_preference_order _ _ _ _ _ _ Hwf Hne Hrun).
Defined.

(** ** C2: recoverable errors and the fallback set *)

Lemma odict_set_values {V} (d : list (string * V)) (k : string) (v v' : V) :
  v' ∈ odict_values (odict_set d k v) → v' = v ∨ v' ∈ odict_values d.
Proof.
  unfold odict_values. induction d as [|[k0 v0] d IH]; simpl.
  - intros ->%list_elem_of_singleton. by left.
  - case_decide; simpl; rewrite !elem_of_cons; [tauto|].
    intros [->|Hin]; [tauto|]. apply IH in Hin. tauto.
Qed.




(** ** C4: the aggregated error *)

(** C4, counterexample.  In test mode, with both candidates
    unavailable, the dispatch stops at the first of them with the "not
    available for testing" error: the loop does not run out of
    handlers, and the error is not the aggregated one listing both. *)
Lemma all_unavailable_in_test_mode :
  let self := Sample.not_installed true in
  Forall (λ h, is_available h = false)
         (filter (λ h, has_method "execute" h) (odict_values (_handler_dict self)))
  ∧ _dispatch_request self "execute" [] ∅
    = ([EvIsAvailable "Gamma"],
       Raise (ExtractorError [Str "Gamma"; Str " is not available for testing, add ";
                              Str "Gamma"; Str " in `exclude` if it should not be used"]))
  ∧ _dispatch_request self "execute" [] ∅
    ≠ ([EvIsAvailable "Gamma"; EvIsAvailable "Epsilon"],
       Raise (ExtractorError [Str (exhausted_msg "execute" ["Gamma"; "Epsilon"] [])])).
Proof.
  split; [|split].
  - apply (bool_decide_unpack _). by vm_compute.
  - by vm_compute.
  - by vm_compute.
Qed.

(** C4, amended.  Outside test mode, if the operation has candidates
    and all of them report themselves unavailable, the loop probes each
    once, calls none, and the dispatch raises the aggregated error
    listing all of them, in ranking order, with no failed attempt
    recorded.  Whenever the loop runs out of handlers with both lists
    non-empty, the lists are the unavailable and the failed handlers,
    and the aggregated error counts the failures and suggests
    installing one of the unavailable backends. *)
Theorem all_unavailable_aggregated (self : JSIWrapper) (method_name : string)
    (args : list PyVal) (kwargs : Kwargs) :
  (_is_test self = false →
   filter (λ h, has_method method_name h) (odict_values (_handler_dict self)) ≠ [] →
   Forall (λ h, is_available h = false)
          (filter (λ h, has_method method_name h) (odict_values (_handler_dict self))) →
   ∃ handlers,
     _get_handlers self method_name args kwargs = Return handlers
     ∧ handlers ≡ₚ filter (λ h, has_method method_name h)
                          (odict_values (_handler_dict self))
     ∧ dispatch_loop self method_name args kwargs handlers [] []
       = ((λ h, EvIsAvailable (JSI_KEY h)) <$> handlers,
          LoopExhausted (JSI_NAME <$> handlers) [])
     ∧ _dispatch_request self method_name args kwargs
       = ((λ h, EvIsAvailable (JSI_KEY h)) <$> handlers,
          Raise (ExtractorError
                   [Str ("No available JSI installed, please install one of: "
                         +:+ join_comma (JSI_NAME <$> handlers))])))
  ∧ (∀ handlers tr U E,
       dispatch_loop self method_name args kwargs handlers [] [] = (tr, LoopExhausted U E) →
       E ≠ [] → U ≠ [] →
       U = JSI_NAME <$> filter (λ h, is_available h = false) handlers
       ∧ E.*1 = filter (λ h, is_available h = true) handlers
       ∧ after_loop method_name (tr, LoopExhausted U E)
         = (tr, Raise (ExtractorError
                  [Str (("Failed to perform " +:+ method_name +:+ ", total "
                         +:+ pretty (length E) +:+ " errors")
                        +:+ ". You can try installing one of unavailable JSI: "
                        +:+ join_comma U)]))).
Proof.
  split.
  - intros Htest Hne Hall.
    destruct (_get_handlers self method_name args kwargs) as [handlers|e] eqn:Hget.
    2:{ unfold _get_handlers in Hget. by rewrite bool_decide_eq_false_2 in Hget. }
    destruct (get_handlers_perm _ _ _ _ _ Hget) as [Hperm _].
    assert (Hloop : dispatch_loop self method_name args kwargs handlers [] []
                    = ((λ h, EvIsAvailable (JSI_KEY h)) <$> handlers,
                       LoopExhausted (JSI_NAME <$> handlers) [])).
    { rewrite dispatch_loop_all_unavailable; [done..|]. by rewrite Hperm. }
    exists handlers. split_and!; [done..|].
    unfold _dispatch_request. rewrite Hget, Hloop. done.
  - intros handlers tr U E Hloop HE HU.
    apply dispatch_loop_exhausted in Hloop as [HUeq HEeq]. simpl in HUeq, HEeq.
    split_and!; [done..|].
    unfold after_loop, exhausted_msg.
    rewrite bool_decide_eq_false_2 by done. by rewrite bool_decide_eq_true_2.
Qed.

Lemma all_unavailable_aggregated_witness :
  let self := Sample.not_installed false in
  let both := [Sample.instance Sample.GammaJSI; Sample.instance Sample.EpsilonJSI] in
  _is_test self = false
  ∧ filter (λ h, has_method "execute" h) (odict_values (_handler_dict self)) ≠ []
  ∧ Forall (λ h, is_available h = false)
           (filter (λ h, has_method "execute" h) (odict_values (_handler_dict self)))
  ∧ (∃ handlers,
       _get_handlers self "execute" [] ∅ = Return handlers
       ∧ handlers ≡ₚ filter (λ h, has_method "execute" h)
                            (odict_values (_handler_dict self))
       ∧ dispatch_loop self "execute" [] ∅ handlers [] []
         = ((λ h, EvIsAvailable (JSI_KEY h)) <$> handlers,
            LoopExhausted (JSI_NAME <$> handlers) [])
       ∧ _dispatch_request self "execute" [] ∅
         = ((λ h, EvIsAvailable (JSI_KEY h)) <$> handlers,
            Raise (ExtractorError
                     [Str ("No available JSI installed, please install one of: "
                           +:+ join_comma (JSI_NAME <$> handlers))])))
  ∧ _dispatch_request self "execute" [] ∅
    = ([EvIsAvailable "Gamma"; EvIsAvailable "Epsilon"],
       Raise (ExtractorError
                [Str "No available JSI installed, please install one of: Gamma, Epsilon"]))
  ∧ _dispatch_request (Sample.failing false) "execute" [] ∅
    = ([EvIsAvailable "Gamma"; EvIsAvailable "Delta"; EvCall "Delta" "execute"],
       Raise (ExtractorError
                [Str "Failed to perform execute, total 1 errors. You can try installing one of unavailable JSI: Gamma"]))
  ∧ after_loop "execute"
      ([EvIsAvailable "Gamma"; EvIsAvailable "Delta"; EvCall "Delta" "execute"],
       LoopExhausted ["Gamma"] [(Sample.instance Sample.DeltaJSI, [Str "delta failed"])])
    = ([EvIsAvailable "Gamma"; EvIsAvailable "Delta"; EvCall "Delta" "execute"],
       Raise (ExtractorError
                [Str (("Failed to perform " +:+ "execute" +:+ ", total "
                       +:+ pretty (length [(Sample.instance Sample.DeltaJSI,
                                            [Str "delta failed"])])
                       +:+ " errors")
                      +:+ ". You can try installing one of unavailable JSI: "
                      +:+ join_comma ["Gamma"])])).
Proof.
  intros self both.
  assert (H1 : _is_test self = false) by reflexivity.
  assert (H2 : filter (λ h, has_method "execute" h)
                 (odict_values (_handler_dict self)) ≠ []) by (by vm_compute).
  assert (H3 : Forall (λ h, is_available h = false)
                 (filter (λ h, has_method "execute" h)
                         (odict_values (_handler_dict self)))).
  { apply (bool_decide_unpack _). by vm_compute. }
  split_and!; [exact H1|exact H2|exact H3| | | |].
  - exact (proj1 (all_unavailable_aggregated self "execute" [] ∅) H1 H2 H3).
  - by vm_compute.
  - by vm_compute.
  - assert (H4 : dispatch_loop (Sample.failing false) "execute" [] ∅
                   [Sample.instance Sample.GammaJSI; Sample.instance Sample.DeltaJSI] [] []
                 = ([EvIsAvailable "Gamma"; EvIsAvailable "Delta"; EvCall "Delta" "execute"],
                    LoopExhausted ["Gamma"]
                      [(Sample.instance Sample.DeltaJSI, [Str "delta failed"])]))
      by (by vm_compute).
    exact (proj2 (proj2 (proj2 (all_unavailable_aggregated (Sample.failing false)
                                  "execute" [] ∅) _ _ _ _ H4
                                  ltac:(discriminate) ltac:(discriminate)))).
Defined.

(** ** C9: when the backends are instantiated *)

Lemma odict_set_absent {V} (d : list (string * V)) (k : string) (v : V) :
  k ∉ odict_keys d → odict_set d k v = d ++ [(k, v)].
Proof.
  unfold odict_keys. induction d as [|[k' v'] d IH]; simpl; [done|].
  intros [? ?]%not_elem_of_cons. rewrite decide_False by done. by rewrite IH.
Qed.

Lemma registry_wf_nil : registry_wf [].
Proof. split; constructor. Qed.

(** [register_jsi] keeps the registry well formed. *)
Lemma register_jsi_wf (R R' : Registry) (cls : JSIClass) :
  registry_wf R → register_jsi R cls = Return R' → registry_wf R'.
Proof.
  intros [Hkeyed Hnd]. unfold register_jsi.
  destruct (negb (endswith_JSI _)); [done|].
  case_bool_decide as Hin; [done|].
  destruct (negb (bool_decide _)); [done|]. intros [= <-].
  rewrite odict_set_absent by done. split.
  - apply Forall_app. split; [done|]. by repeat constructor.
  - unfold odict_keys in *. rewrite fmap_app. apply NoDup_app.
    split_and!; [done| |apply NoDup_singleton].
    intros k Hk ->%list_elem_of_singleton. done.
Qed.

Lemma registry_classes_keys (R : Registry) (keys : list string) :
  Forall (λ kc, kc.1 = cls_JSI_KEY kc.2) R →
  Forall (λ k, k ∈ odict_keys R) keys →
  cls_JSI_KEY <$> omap (odict_get R) keys = keys.
Proof.
  intros Hkeyed. induction 1 as [|k keys Hk _ IH]; [done|].
  apply odict_get_is_Some in Hk as [cls Hcls]. cbn. rewrite Hcls. cbn.
  rewrite IH. f_equal.
  apply odict_get_elem_of in Hcls. rewrite Forall_forall in Hkeyed.
  symmetry. exact (Hkeyed _ Hcls).
Qed.

Lemma filter_jsi_keys_registered (R : Registry) (fs : gset string)
    (only_include exclude : option (list JsiOrKey)) :
  Forall (λ k, k ∈ odict_keys R) (filter_jsi_keys R (Some fs) only_include exclude)
  ∧ (NoDup (odict_keys R) → NoDup (filter_jsi_keys R (Some fs) only_include exclude)).
Proof.
  rewrite filter_jsi_keys_as_filter. split.
  - apply Forall_forall. by intros k [_ ?]%list_elem_of_filter.
  - apply NoDup_filter.
Qed.

Lemma dispatch_request_instantiates_nothing (self : JSIWrapper) (method_name : string)
    (args : list PyVal) (kwargs : Kwargs) :
  instantiated (_dispatch_request self method_name args kwargs).1 = [].
Proof.
  unfold _dispatch_request. destruct (_get_handlers _ _ _ _) as [handlers|e]; [|done].
  destruct (dispatch_loop _ _ _ _ _ _ _) as [tr r] eqn:Hloop.
  apply dispatch_loop_run in Hloop as (_ & _ & _ & _ & _ & Hi & _).
  by destruct r.
Qed.

(** C9, counterexample.  Constructing a wrapper for the feature dom over
    the sample registry calls the constructor of each of the three
    eligible backends, before any operation is requested. *)
Lemma construction_instantiates_backends :
  ∃ tr self,
    __init__ (λ u, Some u) Sample.registry initial_JSI_PREFERENCES Sample.dl
      "" ["dom"] [] [] ∅ [] FallbackAll 10 None = (tr, Return self)
    ∧ filter_jsi_keys Sample.registry (Some {[ "dom" ]}) (Some []) (Some [])
      = ["Alpha"; "Gamma"; "Delta"]
    ∧ tr = [EvInstantiate "Alpha"; EvInstantiate "Gamma"; EvInstantiate "Delta"]
    ∧ odict_keys (_handler_dict self) = ["Alpha"; "Gamma"; "Delta"].
Proof. eexists _, _. split; [by vm_compute|]. split_and!; by vm_compute. Qed.

Section eager_construction.

Variable sanitize_url_or_none : string → option string.
Variable _JSI_HANDLERS : Registry.
Variable _JSI_PREFERENCES : list JSIPreference.

(** C9, amended.  The wrapper instantiates the matching backends
    eagerly: a successful construction over a well-formed registry has
    called the constructor of every eligible backend, in lookup order,
    and holds one instance per eligible key; an operation call
    instantiates nothing. *)
Theorem backends_instantiated_at_construction dl url features only_include exclude
    jsi_params preferred_order fallback_jsi timeout user_agent tr self :
  registry_wf _JSI_HANDLERS →
  __init__ sanitize_url_or_none _JSI_HANDLERS _JSI_PREFERENCES dl url features
    only_include exclude jsi_params preferred_order fallback_jsi timeout user_agent
  = (tr, Return self) →
  instantiated tr
  = filter_jsi_keys _JSI_HANDLERS (Some (list_to_set features))
                    (Some only_include) (Some exclude)
  ∧ instantiated tr ≠ []
  ∧ odict_keys (_handler_dict self) = instantiated tr
  ∧ wrapper_wf self
  ∧ ∀ method_name args kwargs,
      instantiated (_dispatch_request self method_name args kwargs).1 = [].
Proof.
  intros [Hkeyed Hnd] Hinit.
  apply init_Return in Hinit as (_ & Hne & Htr & (hs & Hhs & Hd) & _).
  destruct (filter_jsi_keys_registered _JSI_HANDLERS (list_to_set features)
              (Some only_include) (Some exclude)) as [Hreg Hnd'].
  specialize (Hnd' Hnd).
  rewrite (registry_classes_keys _ _ Hkeyed Hreg) in Htr.
  assert (Hkeys : JSI_KEY <$> hs
                  = filter_jsi_keys _JSI_HANDLERS (Some (list_to_set features))
                      (Some only_include) (Some exclude)).
  { rewrite <- (registry_classes_keys _ _ Hkeyed Hreg) at 1. rewrite <- Hhs.
    by rewrite <- list_fmap_compose. }
  assert (Hdk : odict_keys (_handler_dict self) = JSI_KEY <$> hs).
  { rewrite Hd, odict_fold_keys; [done|]. simpl. by rewrite Hkeys. }
  split_and!.
  - done.
  - rewrite Htr. intros Hnil. apply Hne. by rewrite Hnil.
  - by rewrite Hdk, Hkeys.
  - unfold wrapper_wf. rewrite keyed_values_keys.
    + by rewrite Hdk, Hkeys.
    + rewrite Hd. apply odict_fold_keyed. constructor.
  - apply dispatch_request_instantiates_nothing.
Qed.

End eager_construction.

Lemma backends_instantiated_at_construction_witness :
  registry_wf Sample.registry
  ∧ ∃ tr self,
      __init__ (λ u, Some u) Sample.registry initial_JSI_PREFERENCES Sample.dl
        "" ["dom"] [] [] ∅ [] FallbackAll 10 None = (tr, Return self)
      ∧ instantiated tr
        = filter_jsi_keys Sample.registry (Some (list_to_set ["dom"])) (Some []) (Some [])
      ∧ instantiated tr ≠ []
      ∧ odict_keys (_handler_dict self) = instantiated tr
      ∧ wrapper_wf self
      ∧ ∀ method_name args kwargs,
          instantiated (_dispatch_request self method_name args kwargs).1 = [].
Proof.
  assert (Hwf : registry_wf Sample.registry).
  { split; apply (bool_decide_unpack _); by vm_compute. }
  split; [exact Hwf|].
  destruct (__init__ (λ u, Some u) Sample.registry initial_JSI_PREFERENCES Sample.dl
              "" ["dom"] [] [] ∅ [] FallbackAll 10 None) as [tr [self|e]] eqn:Hinit.
  - exists tr, self. split; [reflexivity|].
    exact (backends_instantiated_at_construction (λ u, Some u) Sample.registry
             initial_JSI_PREFERENCES _ _ _ _ _ _ _ _ _ _ tr self Hwf Hinit).
  - exfalso. revert Hinit. by vm_compute.
Defined.

(** ** C8 and C10: the feature check of [execute] *)

Lemma execute_unfold (self : JSIWrapper) (args : list PyVal) (kwargs : Kwargs) :
  execute self args kwargs
  = match check_features execute_features self kwargs with
    | Some e => raise e
    | None => execute_body self args kwargs
    end.
Proof.
  unfold execute, require_features.
  destruct (negb (forallb _ _)) eqn:Hassert; [|done].
  exfalso. revert Hassert. by vm_compute.
Qed.

Lemma issuperset_singleton (s : gset string) (f : string) :
  issuperset s (list_to_set [f]) = bool_decide (f ∈ s).
Proof.
  unfold issuperset. apply bool_decide_ext. simpl.
  by rewrite union_empty_r_L, singleton_subseteq_l.
Qed.

(** The check looks at the names of the keyword arguments only. *)
Lemma check_features_execute (self : JSIWrapper) (kwargs : Kwargs) :
  check_features execute_features self kwargs
  = if bool_decide ("location" ∈ (dom kwargs : gset string)) && negb (bool_decide ("location" ∈ _features self))
    then Some (ExtractorError [Str "feature "; Str "location"; Str " is required for `";
                               Str "location"; Str "` param but not declared"])
    else if bool_decide ("html" ∈ (dom kwargs : gset string)) && negb (bool_decide ("dom" ∈ _features self))
    then Some (ExtractorError [Str "feature "; Str "dom"; Str " is required for `";
                               Str "html"; Str "` param but not declared"])
    else if bool_decide ("cookiejar" ∈ (dom kwargs : gset string))
            && negb (bool_decide ("cookies" ∈ _features self))
    then Some (ExtractorError [Str "feature "; Str "cookies"; Str " is required for `";
                               Str "cookiejar"; Str "` param but not declared"])
    else None.
Proof.
  unfold execute_features. cbn [check_features variadic feature_repr].
  by rewrite !issuperset_singleton.
Qed.

Lemma bind_arguments_two (jscode video_id : PyVal) :
  bind_arguments execute_params 2 [jscode; video_id] ∅
  = Return (list_to_map [("jscode", jscode); ("video_id", video_id)]).
Proof. by vm_compute. Qed.

Lemma bind_arguments_two_html_None (jscode video_id : PyVal) :
  bind_arguments execute_params 2 [jscode; video_id] {[ "html" := PNone ]}
  = Return (list_to_map [("jscode", jscode); ("video_id", video_id); ("html", PNone)]).
Proof. by vm_compute. Qed.

(** With the two required arguments and no document body, nothing but
    the two arguments is forwarded: an [html] that is [None], given or
    defaulted, is filtered out. *)
Lemma execute_body_two (self : JSIWrapper) (jscode video_id : PyVal) :
  execute_body self [jscode; video_id] ∅
  = _dispatch_request self "execute" [jscode; video_id] ∅
  ∧ execute_body self [jscode; video_id] {[ "html" := PNone ]}
    = _dispatch_request self "execute" [jscode; video_id] ∅.
Proof.
  unfold execute_body.
  rewrite bind_arguments_two, bind_arguments_two_html_None.
  split; f_equal; by vm_compute.
Qed.

(** C8, evaluation at the failing input.  On a wrapper that does not
    declare dom, a document body given as the fourth positional argument
    is not checked: the call is dispatched and the backend receives the
    body.  The same body given by keyword is rejected before any backend
    is touched. *)
Theorem execute_positional_html_unchecked :
  ("dom" ∉ _features Sample.echo)
  ∧ execute Sample.echo [PStr "js"; PStr "id"; PNone; PStr "<html>"] ∅
    = ([EvIsAvailable "Echo"; EvCall "Echo" "execute"], Return (PStr "<html>"))
  ∧ execute Sample.echo [PStr "js"; PStr "id"] {[ "html" := PStr "<html>" ]}
    = ([], Raise (ExtractorError [Str "feature "; Str "dom"; Str " is required for `";
                                  Str "html"; Str "` param but not declared"])).
Proof.
  split; [|split].
  - apply (bool_decide_unpack _). by vm_compute.
  - by vm_compute.
  - by vm_compute.
Qed.

(** C10.  The check of [execute] fires on the presence of the keyword
    [html], whatever its value: on a wrapper without dom, a call that
    passes [html] by keyword, be it [None], raises the feature error
    with no backend touched.  A call whose keywords name no protected
    parameter passes the check and runs the body; with [html] omitted
    the call is the dispatch of the two arguments.  Where dom is
    declared, an explicit [html=None] is dropped before the request is
    forwarded, so that the call is the same dispatch. *)
Theorem feature_check_on_keyword_presence (self : JSIWrapper) (args : list PyVal)
    (kwargs : Kwargs) (jscode video_id : PyVal) :
  ("dom" ∉ _features self →
   (∀ v, kwargs !! "html" = Some v →
         ("location" ∈ (dom kwargs : gset string) → "location" ∈ _features self) →
         execute self args kwargs
         = ([], Raise (ExtractorError [Str "feature "; Str "dom"; Str " is required for `";
                                       Str "html"; Str "` param but not declared"])))
   ∧ execute self [jscode; video_id] {[ "html" := PNone ]}
     = ([], Raise (ExtractorError [Str "feature "; Str "dom"; Str " is required for `";
                                   Str "html"; Str "` param but not declared"])))
  ∧ (((dom kwargs : gset string) ## {[ "location"; "html"; "cookiejar" ]}) →
     execute self args kwargs = execute_body self args kwargs)
  ∧ execute self [jscode; video_id] ∅
    = _dispatch_request self "execute" [jscode; video_id] ∅
  ∧ ("dom" ∈ _features self →
     execute self [jscode; video_id] {[ "html" := PNone ]}
     = _dispatch_request self "execute" [jscode; video_id] ∅).
Proof.
  assert (Hpresent : "html" ∈ (dom ({[ "html" := PNone ]} : Kwargs) : gset string)).
  { apply elem_of_dom. rewrite lookup_singleton_eq. by eexists. }
  assert (Hloc : "location" ∉ (dom ({[ "html" := PNone ]} : Kwargs) : gset string)).
  { apply not_elem_of_dom. by apply lookup_singleton_ne. }
  assert (Hjar : "cookiejar" ∉ (dom ({[ "html" := PNone ]} : Kwargs) : gset string)).
  { apply not_elem_of_dom. by apply lookup_singleton_ne. }
  split_and!.
  - intros Hdom. split.
    + intros v Hv Hlocation. rewrite execute_unfold, check_features_execute.
      assert ("html" ∈ (dom kwargs : gset string)) by (apply elem_of_dom; by eexists).
      destruct (decide ("location" ∈ (dom kwargs : gset string))) as [Hl|Hl].
      * rewrite (bool_decide_eq_true_2 ("location" ∈ _features self)) by auto.
        rewrite andb_false_r.
        rewrite (bool_decide_eq_true_2 ("html" ∈ _)) by done.
        by rewrite (bool_decide_eq_false_2 ("dom" ∈ _)).
      * rewrite (bool_decide_eq_false_2 ("location" ∈ dom kwargs)) by done.
        rewrite (bool_decide_eq_true_2 ("html" ∈ _)) by done.
        by rewrite (bool_decide_eq_false_2 ("dom" ∈ _)).
    + rewrite execute_unfold, check_features_execute.
      rewrite (bool_decide_eq_false_2 ("location" ∈ dom _)) by done.
      rewrite (bool_decide_eq_true_2 ("html" ∈ _)) by done.
      by rewrite (bool_decide_eq_false_2 ("dom" ∈ _)).
  - intros Hdisj. rewrite execute_unfold, check_features_execute.
    rewrite !(bool_decide_eq_false_2 (_ ∈ dom kwargs)); [done|set_solver..].
  - rewrite execute_unfold, check_features_execute.
    rewrite !(bool_decide_eq_false_2 (_ ∈ dom ∅)) by (rewrite dom_empty_L; set_solver).
    apply execute_body_two.
  - intros Hdom. rewrite execute_unfold, check_features_execute.
    rewrite (bool_decide_eq_false_2 ("location" ∈ dom _)) by done.
    rewrite (bool_decide_eq_true_2 ("dom" ∈ _)) by done. rewrite andb_false_r.
    rewrite (bool_decide_eq_false_2 ("cookiejar" ∈ dom _)) by done.
    apply execute_body_two.
Qed.

Lemma feature_check_on_keyword_presence_witness :
  ("dom" ∉ _features Sample.echo)
  ∧ execute Sample.echo [PStr "js"; PStr "id"] {[ "html" := PNone ]}
    = ([], Raise (ExtractorError [Str "feature "; Str "dom"; Str " is required for `";
                                  Str "html"; Str "` param but not declared"]))
  ∧ execute Sample.echo [PStr "js"; PStr "id"] ∅
    = _dispatch_request Sample.echo "execute" [PStr "js"; PStr "id"] ∅
  ∧ _dispatch_request Sample.echo "execute" [PStr "js"; PStr "id"] ∅
    = ([EvIsAvailable "Echo"; EvCall "Echo" "execute"], Return PNone).
Proof.
  assert (Hdom : "dom" ∉ _features Sample.echo).
  { apply (bool_decide_unpack _). by vm_compute. }
  split; [exact Hdom|]. split; [|split].
  - exact (proj2 (proj1 (feature_check_on_keyword_presence Sample.echo [] ∅
                           (PStr "js") (PStr "id")) Hdom)).
  - exact (proj1 (proj2 (proj2 (feature_check_on_keyword_presence Sample.echo [] ∅
                                  (PStr "js") (PStr "id"))))).
  - by vm_compute.
Defined.

(** ** C6: composition of the preferences *)

Lemma get_jsi_keys_OfStr (keys : list string) : get_jsi_keys (OfStr <$> keys) = keys.
Proof.
  induction keys as [|k keys IH]; [done|].
  rewrite fmap_cons. unfold get_jsi_keys in *. cbn [map]. by rewrite IH.
Qed.

Lemma first_occurrence (keys : list string) (k : string) :
  k ∈ keys → ∃ i, keys !! i = Some k ∧ (k ∉ take i keys) ∧ (i < length keys)%nat.
Proof.
  induction keys as [|x keys IH]; [by intros ?%not_elem_of_nil|].
  intros Hin. destruct (decide (x = k)) as [->|Hne].
  - exists 0%nat. simpl. split_and!; [done|apply not_elem_of_nil|lia].
  - apply elem_of_cons in Hin as [->|Hin]; [done|].
    destruct (IH Hin) as (i & Hi & Hfirst & Hlt). exists (S i). simpl.
    split_and!; [done| |lia]. by intros [?|?]%elem_of_cons.
Qed.

Lemma order_to_pref_absent (jsi_order : list JsiOrKey) (m : Z) (h : JSI)
    method_name args kwargs :
  JSI_KEY h ∉ get_jsi_keys jsi_order →
  order_to_pref jsi_order m h method_name args kwargs = 0%Z.
Proof.
  intros Hout. unfold order_to_pref.
  by rewrite (proj2 (pref_score_of_reverse _ m _) Hout).
Qed.

Lemma order_to_pref_first (x : JsiOrKey) (rest : list JsiOrKey) (m : Z) (h : JSI)
    method_name args kwargs :
  get_jsi_keys [x] = [JSI_KEY h] →
  order_to_pref (x :: rest) m h method_name args kwargs
  = (Z.of_nat (S (length rest)) * m)%Z.
Proof.
  intros [= Hx]. unfold order_to_pref.
  rewrite (proj1 (pref_score_of_reverse _ m _) 0%nat).
  - unfold score_at, get_jsi_keys. simpl. by rewrite length_map.
  - simpl. by rewrite Hx.
  - apply not_elem_of_nil.
Qed.

Lemma order_to_pref_nonneg (jsi_order : list JsiOrKey) (m : Z) (h : JSI)
    method_name args kwargs :
  (0 ≤ m)%Z → (0 ≤ order_to_pref jsi_order m h method_name args kwargs)%Z.
Proof.
  intros Hm. destruct (decide (JSI_KEY h ∈ get_jsi_keys jsi_order)) as [Hin|Hout].
  - apply first_occurrence in Hin as (i & Hi & Hfirst & _). unfold order_to_pref.
    rewrite (proj1 (pref_score_of_reverse _ m _) i Hi Hfirst). unfold score_at. simpl.
    apply Z.mul_nonneg_nonneg; lia.
  - by rewrite order_to_pref_absent.
Qed.

Lemma sum_Z_nonneg (l : list Z) : Forall (λ z, 0 ≤ z)%Z l → (0 ≤ sum_Z l)%Z.
Proof. induction 1; rewrite ?sum_Z_cons; [done|lia]. Qed.

Lemma sum_Z_nonpos (l : list Z) : Forall (λ z, z ≤ 0)%Z l → (sum_Z l ≤ 0)%Z.
Proof. induction 1; rewrite ?sum_Z_cons; [done|lia]. Qed.

(** C6, counterexample.  A global scorer returns 2 for [Alpha] only and
    the session order list is [Alpha], yet [Beta], which neither of them
    mentions, scores 10000 against 102 because the operator's list names
    it.  And with the same two ingredients [Zeta], whose base preference
    is -200, scores -98. *)
Lemma composition_with_other_scorers :
  (∃ tr self,
     __init__ (λ u, Some u) Sample.registry (Sample.prefer Sample.AlphaJSI)
       Sample.dl_operator "" [] [] [] ∅ [OfStr "Alpha"] (FallbackOnly []) 10 None
     = (tr, Return self)
     ∧ combined_preference self "execute" [] ∅ (Sample.instance Sample.AlphaJSI) = 102%Z
     ∧ combined_preference self "execute" [] ∅ (Sample.instance Sample.BetaJSI) = 10000%Z
     ∧ ¬ (combined_preference self "execute" [] ∅ (Sample.instance Sample.BetaJSI)
          < combined_preference self "execute" [] ∅ (Sample.instance Sample.AlphaJSI))%Z)
  ∧ (∃ tr self,
       __init__ (λ u, Some u) Sample.registry (Sample.prefer Sample.ZetaJSI)
         Sample.dl "" [] [] [] ∅ [OfStr "Zeta"] (FallbackOnly []) 10 None
       = (tr, Return self)
       ∧ combined_preference self "execute" [] ∅ (Sample.instance Sample.ZetaJSI) = (-98)%Z
       ∧ ¬ (102 ≤ combined_preference self "execute" [] ∅
                    (Sample.instance Sample.ZetaJSI))%Z).
Proof.
  split; eexists _, _; (split; [by vm_compute|]); split_and!; by vm_compute.
Qed.

(** C6, amended.  The combined preference of a handler is the sum of the
    scores of all active scorers: the operator's order list with
    multiplier 10000, the session order list with multiplier 100, and
    the process-wide scorers.  If a process-wide scorer returns 2 for X,
    the session list places X first and no other process-wide scorer
    gives X a negative score, the combined score of X is at least 102;
    it is then strictly greater than that of any handler that is in
    neither order list and gets no positive score from a process-wide
    scorer. *)
Theorem combined_preference_composition sanitize (R : Registry)
    (G1 G2 : list JSIPreference) (g : JSIPreference) dl url features only_include exclude
    jsi_params (x : JsiOrKey) (rest : list JsiOrKey) fallback_jsi timeout user_agent
    tr self method_name args kwargs (hX hY : JSI) :
  __init__ sanitize R (G1 ++ g :: G2) dl url features only_include exclude jsi_params
    (x :: rest) fallback_jsi timeout user_agent = (tr, Return self) →
  (∀ h, combined_preference self method_name args kwargs h
        = (order_to_pref (OfStr <$> filter (λ k, k ∈ odict_keys R)
                                           (params_jsi_preference dl)) 10000
                         h method_name args kwargs
           + order_to_pref (x :: rest) 100 h method_name args kwargs
           + sum_Z ((λ f : JSIPreference, f h method_name args kwargs)
                      <$> (G1 ++ g :: G2)))%Z)
  ∧ (get_jsi_keys [x] = [JSI_KEY hX] →
     g hX method_name args kwargs = 2%Z →
     (∀ f : JSIPreference, f ∈ G1 ++ G2 → (0 ≤ f hX method_name args kwargs)%Z) →
     (102 ≤ combined_preference self method_name args kwargs hX)%Z
     ∧ (JSI_KEY hY ∉ get_jsi_keys (x :: rest) →
        JSI_KEY hY ∉ params_jsi_preference dl →
        (∀ f : JSIPreference, f ∈ G1 ++ g :: G2 → (f hY method_name args kwargs ≤ 0)%Z) →
        (combined_preference self method_name args kwargs hY
         < combined_preference self method_name args kwargs hX)%Z)).
Proof.
  intros Hinit.
  apply init_Return in Hinit as (_ & _ & _ & _ & _ & _ & _ & Hprefs).
  assert (Hsum : ∀ h, combined_preference self method_name args kwargs h
        = (order_to_pref (OfStr <$> filter (λ k, k ∈ odict_keys R)
                                           (params_jsi_preference dl)) 10000
                         h method_name args kwargs
           + order_to_pref (x :: rest) 100 h method_name args kwargs
           + sum_Z ((λ f : JSIPreference, f h method_name args kwargs)
                      <$> (G1 ++ g :: G2)))%Z).
  { intros h. unfold combined_preference. rewrite Hprefs.
    rewrite <- !app_comm_cons, app_nil_l, !fmap_cons, !sum_Z_cons. lia. }
  split; [exact Hsum|]. intros Hx Hg Hothers.
  assert (HX : (102 ≤ combined_preference self method_name args kwargs hX)%Z).
  { rewrite Hsum, (order_to_pref_first _ _ _ _ _ _ _ Hx).
    rewrite fmap_app, fmap_cons, sum_Z_app, sum_Z_cons, Hg.
    pose proof (order_to_pref_nonneg
                  (OfStr <$> filter (λ k, k ∈ odict_keys R) (params_jsi_preference dl))
                  10000 hX method_name args kwargs ltac:(lia)).
    assert (0 ≤ sum_Z ((λ f : JSIPreference, f hX method_name args kwargs) <$> G1))%Z.
    { apply sum_Z_nonneg, Forall_fmap, Forall_forall. intros f Hf. simpl.
      apply Hothers, elem_of_app. by left. }
    assert (0 ≤ sum_Z ((λ f : JSIPreference, f hX method_name args kwargs) <$> G2))%Z.
    { apply sum_Z_nonneg, Forall_fmap, Forall_forall. intros f Hf. simpl.
      apply Hothers, elem_of_app. by right. }
    lia. }
  split; [exact HX|]. intros HYsession HYoperator HYglobal.
  rewrite (Hsum hY). rewrite (order_to_pref_absent (x :: rest)) by done.
  rewrite order_to_pref_absent.
  2:{ rewrite get_jsi_keys_OfStr. by intros [_ ?]%list_elem_of_filter. }
  assert (sum_Z ((λ f : JSIPreference, f hY method_name args kwargs)
                   <$> (G1 ++ g :: G2)) ≤ 0)%Z.
  { apply sum_Z_nonpos, Forall_fmap, Forall_forall. intros f Hf. simpl. by apply HYglobal. }
  lia.
Qed.

Lemma combined_preference_composition_witness :
  let base := initial_JSI_PREFERENCES in
  let two : JSIPreference := restricted_pref [Sample.AlphaJSI] (λ _ _ _ _, 2%Z) in
  let Alpha := Sample.instance Sample.AlphaJSI in
  let Beta := Sample.instance Sample.BetaJSI in
  ∃ tr self,
    __init__ (λ u, Some u) Sample.registry (base ++ two :: []) Sample.dl "" []
      [] [] ∅ (OfStr "Alpha" :: []) (FallbackOnly []) 10 None = (tr, Return self)
    ∧ get_jsi_keys [OfStr "Alpha"] = [JSI_KEY Alpha]
    ∧ two Alpha "execute" [] ∅ = 2%Z
    ∧ (∀ f : JSIPreference, f ∈ base ++ [] → (0 ≤ f Alpha "execute" [] ∅)%Z)
    ∧ (JSI_KEY Beta ∉ get_jsi_keys (OfStr "Alpha" :: []))
    ∧ (JSI_KEY Beta ∉ params_jsi_preference Sample.dl)
    ∧ (∀ f : JSIPreference, f ∈ base ++ two :: [] → (f Beta "execute" [] ∅ ≤ 0)%Z)
    ∧ (102 ≤ combined_preference self "execute" [] ∅ Alpha)%Z
    ∧ (combined_preference self "execute" [] ∅ Beta
       < combined_preference self "execute" [] ∅ Alpha)%Z.
Proof.
  intros base two Alpha Beta.
  destruct (__init__ (λ u, Some u) Sample.registry (base ++ two :: []) Sample.dl "" []
              [] [] ∅ (OfStr "Alpha" :: []) (FallbackOnly []) 10 None)
    as [tr [self|e]] eqn:Hinit.
  2:{ exfalso. revert Hinit. by vm_compute. }
  assert (H1 : get_jsi_keys [OfStr "Alpha"] = [JSI_KEY Alpha]) by reflexivity.
  assert (H2 : two Alpha "execute" [] ∅ = 2%Z) by reflexivity.
  assert (H3 : ∀ f : JSIPreference, f ∈ base ++ [] → (0 ≤ f Alpha "execute" [] ∅)%Z).
  { intros f Hf. rewrite app_nil_r in Hf. apply list_elem_of_singleton in Hf as ->.
    by vm_compute. }
  assert (H4 : JSI_KEY Beta ∉ get_jsi_keys (OfStr "Alpha" :: [])).
  { apply (bool_decide_unpack _). by vm_compute. }
  assert (H5 : JSI_KEY Beta ∉ params_jsi_preference Sample.dl) by apply not_elem_of_nil.
  assert (H6 : ∀ f : JSIPreference, f ∈ base ++ two :: [] →
                 (f Beta "execute" [] ∅ ≤ 0)%Z).
  { intros f Hf. apply elem_of_app in Hf as [Hf|Hf];
      apply list_elem_of_singleton in Hf as ->; by vm_compute. }
  exists tr, self. split; [reflexivity|].
  split_and!; [exact H1|exact H2|exact H3|exact H4|exact H5|exact H6| |].
  - exact (proj1 (proj2 (combined_preference_composition _ _ base [] two _ _ _ _ _ _ _ _
                           _ _ _ tr self "execute" [] ∅ Alpha Beta Hinit) H1 H2 H3)).
  - exact (proj2 (proj2 (combined_preference_composition _ _ base [] two _ _ _ _ _ _ _ _
                           _ _ _ tr self "execute" [] ∅ Alpha Beta Hinit) H1 H2 H3)
             H4 H5 H6).
Defined.

(** * Further properties of the module *)

(** ** Registration *)

Lemma filter_none {A} (P : A → Prop) `{!∀ x, Decision (P x)} (l : list A) :
  (∀ x, x ∈ l → ¬ P x) → filter P l = [].
Proof.
  induction l as [|x l IH]; intros Hall; [done|].
  rewrite filter_cons_False by (apply Hall, elem_of_cons; by left).
  apply IH. intros y Hy. apply Hall, elem_of_cons. by right.
Qed.

Lemma odict_get_app_absent {V} (d : list (string * V)) (k k' : string) (v : V) :
  k ∉ odict_keys d →
  odict_get (d ++ [(k, v)]) k' = if decide (k = k') then Some v else odict_get d k'.
Proof.
  unfold odict_keys. induction d as [|[k0 v0] d IH]; simpl; [done|].
  intros [Hne Hk]%not_elem_of_cons. rewrite IH by done.
  destruct (decide (k0 = k')) as [->|?]; [|done]. by rewrite decide_False.
Qed.


(** X1.  [register_jsi] succeeds exactly when the class name ends in
    JSI, the key is not registered yet and the declared features are in
    the closed set.  It then appends the class under its key: the key
    now looks up the class, every other key looks up what it did, and
    the keys keep their order.  Otherwise it raises an
    [AssertionError]. *)
Theorem register_jsi_characterised (R : Registry) (cls : JSIClass) :
  (endswith_JSI (cls_name cls) →
   cls_JSI_KEY cls ∉ odict_keys R →
   _SUPPORTED_FEATURES cls ⊆ _ALL_FEATURES →
   register_jsi R cls = Return (R ++ [(cls_JSI_KEY cls, cls)])
   ∧ odict_get (R ++ [(cls_JSI_KEY cls, cls)]) (cls_JSI_KEY cls) = Some cls
   ∧ (∀ k, k ≠ cls_JSI_KEY cls →
           odict_get (R ++ [(cls_JSI_KEY cls, cls)]) k = odict_get R k)
   ∧ odict_keys (R ++ [(cls_JSI_KEY cls, cls)]) = odict_keys R ++ [cls_JSI_KEY cls])
  ∧ (∀ R', register_jsi R cls = Return R' →
           endswith_JSI (cls_name cls)
           ∧ (cls_JSI_KEY cls ∉ odict_keys R)
           ∧ _SUPPORTED_FEATURES cls ⊆ _ALL_FEATURES)
  ∧ (∀ e, register_jsi R cls = Raise e → ∃ msg, e = AssertionError msg).
Proof.
  unfold register_jsi. split_and!.
  - intros Hname Hkey Hfs.
    rewrite (Is_true_true_1 _ Hname). cbn [negb].
    rewrite bool_decide_eq_false_2 by done.
    rewrite (bool_decide_eq_true_2 _ Hfs). cbn [negb].
    rewrite odict_set_absent by done. split_and!; [done| | |].
    + rewrite odict_get_app_absent by done. by rewrite decide_True.
    + intros k Hk. rewrite odict_get_app_absent by done. by rewrite decide_False.
    + unfold odict_keys. by rewrite fmap_app.
  - intros R'. destruct (endswith_JSI (cls_name cls)); cbn [negb]; [|done].
    case_bool_decide as Hkey; [done|].
    case_bool_decide as Hfs; cbn [negb]; [|done]. by intros _.
  - intros e. destruct (endswith_JSI (cls_name cls)); cbn [negb].
    2:{ intros [= <-]. by eexists. }
    case_bool_decide as Hkey; [intros [= <-]; by eexists|].
    case_bool_decide as Hfs; cbn [negb]; [done|]. intros [= <-]. by eexists.
Qed.

Lemma register_jsi_characterised_witness :
  endswith_JSI (cls_name Sample.AlphaJSI)
  ∧ (cls_JSI_KEY Sample.AlphaJSI ∉ odict_keys (Sample.register_all [] [Sample.BetaJSI]))
  ∧ _SUPPORTED_FEATURES Sample.AlphaJSI ⊆ _ALL_FEATURES
  ∧ register_jsi (Sample.register_all [] [Sample.BetaJSI]) Sample.AlphaJSI
    = Return (Sample.register_all [] [Sample.BetaJSI]
                ++ [(cls_JSI_KEY Sample.AlphaJSI, Sample.AlphaJSI)]).
Proof.
  assert (H1 : endswith_JSI (cls_name Sample.AlphaJSI)) by (by vm_compute).
  assert (H2 : cls_JSI_KEY Sample.AlphaJSI
               ∉ odict_keys (Sample.register_all [] [Sample.BetaJSI])).
  { apply (bool_decide_unpack _). by vm_compute. }
  assert (H3 : _SUPPORTED_FEATURES Sample.AlphaJSI ⊆ _ALL_FEATURES).
  { apply (bool_decide_unpack _). by vm_compute. }
  split_and!; [exact H1|exact H2|exact H3|].
  exact (proj1 (proj1 (register_jsi_characterised _ Sample.AlphaJSI) H1 H2 H3)).
Defined.

Lemma supports_subseteq (R : Registry) (fs : gset string) (key : string) :
  Forall (λ kc, _SUPPORTED_FEATURES kc.2 ⊆ _ALL_FEATURES) R →
  supports R fs key → fs ⊆ _ALL_FEATURES.
Proof.
  intros Hok (cls & Hget & Hfs)%supports_spec.
  apply odict_get_elem_of in Hget. rewrite Forall_forall in Hok.
  specialize (Hok _ Hget). simpl in Hok. set_solver.
Qed.

(** X2.  The empty registry satisfies, and every successful
    [register_jsi] keeps, the invariant that each class is stored once,
    under its own key, with a name ending in JSI and features from the
    closed set.  In such a registry a request that names a feature
    outside the closed set selects no backend. *)
Theorem registry_invariant (R R' : Registry) (cls : JSIClass) (fs : gset string)
    (only_include exclude : option (list JsiOrKey)) :
  registry_ok []
  ∧ (registry_ok R → register_jsi R cls = Return R' → registry_ok R')
  ∧ (registry_ok R → ¬ fs ⊆ _ALL_FEATURES →
     filter_jsi_keys R (Some fs) only_include exclude = []).
Proof.
  split_and!.
  - split; [apply registry_wf_nil|constructor].
  - intros [Hwf Hok] Hreg. split; [by eapply register_jsi_wf|].
    destruct (proj1 (proj2 (register_jsi_characterised R cls)) _ Hreg)
      as (Hname & Hkey & Hfs).
    destruct (proj1 (register_jsi_characterised R cls) Hname Hkey Hfs) as [Heq _].
    rewrite Heq in Hreg. injection Hreg as <-.
    apply Forall_app. split; [done|]. by repeat constructor.
  - intros [_ Hok] Hfs. rewrite filter_jsi_keys_as_filter.
    apply filter_none. intros key _ [Hsup _]. apply Hfs.
    eapply supports_subseteq; [|exact Hsup].
    eapply Forall_impl; [exact Hok|]. by intros kc [? _].
Qed.

Lemma registry_invariant_witness :
  registry_ok (Sample.register_all [] [Sample.BetaJSI])
  ∧ register_jsi (Sample.register_all [] [Sample.BetaJSI]) Sample.AlphaJSI
    = Return (Sample.register_all [] [Sample.BetaJSI; Sample.AlphaJSI])
  ∧ registry_ok (Sample.register_all [] [Sample.BetaJSI; Sample.AlphaJSI])
  ∧ ¬ ({[ "wasm"; "gpu" ]} : gset string) ⊆ _ALL_FEATURES
  ∧ filter_jsi_keys (Sample.register_all [] [Sample.BetaJSI])
      (Some {[ "wasm"; "gpu" ]}) None None = [].
Proof.
  assert (H1 : registry_ok (Sample.register_all [] [Sample.BetaJSI])).
  { split; [split|]; apply (bool_decide_unpack _); by vm_compute. }
  assert (H2 : register_jsi (Sample.register_all [] [Sample.BetaJSI]) Sample.AlphaJSI
               = Return (Sample.register_all [] [Sample.BetaJSI; Sample.AlphaJSI]))
    by (by vm_compute).
  assert (H3 : ¬ ({[ "wasm"; "gpu" ]} : gset string) ⊆ _ALL_FEATURES).
  { apply (bool_decide_unpack _). by vm_compute. }
  split_and!; [exact H1|exact H2| |exact H3|].
  - exact (proj1 (proj2 (registry_invariant _ _ Sample.AlphaJSI ∅ None None)) H1 H2).
  - exact (proj2 (proj2 (registry_invariant _ [] Sample.AlphaJSI _ None None)) H1 H3).
Defined.

(** ** The two-step filters *)


(** ** Order lists *)

(** The score of an order list is a whole number of multipliers, between
    none and the length of the list. *)
Lemma order_to_pref_multiple (jsi_order : list JsiOrKey) (m : Z) (h : JSI)
    method_name args kwargs :
  ∃ q : nat, (q ≤ length (get_jsi_keys jsi_order))%nat
             ∧ order_to_pref jsi_order m h method_name args kwargs = (Z.of_nat q * m)%Z
             ∧ (q = 0%nat ↔ JSI_KEY h ∉ get_jsi_keys jsi_order).
Proof.
  destruct (decide (JSI_KEY h ∈ get_jsi_keys jsi_order)) as [Hin|Hout].
  - pose proof Hin as (i & Hi & Hfirst & Hlt)%first_occurrence.
    exists (length (get_jsi_keys jsi_order) - i)%nat. split_and!; [lia| |].
    + unfold order_to_pref.
      by rewrite (proj1 (pref_score_of_reverse _ m _) i Hi Hfirst).
    + split; [lia|done].
  - exists 0%nat. split_and!; [lia| |done].
    rewrite order_to_pref_absent by done. lia.
Qed.

Lemma order_to_pref_at (jsi_order : list JsiOrKey) (m : Z) (h : JSI)
    method_name args kwargs (i : nat) :
  get_jsi_keys jsi_order !! i = Some (JSI_KEY h) →
  JSI_KEY h ∉ take i (get_jsi_keys jsi_order) →
  order_to_pref jsi_order m h method_name args kwargs
  = score_at (length (get_jsi_keys jsi_order)) i m.
Proof.
  intros Hi Hfirst. unfold order_to_pref.
  by rewrite (proj1 (pref_score_of_reverse _ m _) i Hi Hfirst).
Qed.



(** ** Layers of preference *)

Section preference_layers.

Variable sanitize_url_or_none : string → option string.
Variable _JSI_HANDLERS : Registry.

(** The three layers of the combined preference of a constructed
    wrapper. *)
Lemma combined_preference_layers G dl url features only_include exclude jsi_params
    preferred_order fallback_jsi timeout user_agent tr self method_name args kwargs h :
  __init__ sanitize_url_or_none _JSI_HANDLERS G dl url features only_include exclude
    jsi_params preferred_order fallback_jsi timeout user_agent = (tr, Return self) →
  combined_preference self method_name args kwargs h
  = (order_to_pref (OfStr <$> filter (λ k, k ∈ odict_keys _JSI_HANDLERS)
                                     (params_jsi_preference dl)) 10000
                   h method_name args kwargs
     + order_to_pref preferred_order 100 h method_name args kwargs
     + global_score G method_name args kwargs h)%Z.
Proof.
  intros Hinit. apply init_Return in Hinit as (_ & _ & _ & _ & _ & _ & _ & Hprefs).
  unfold combined_preference, global_score. rewrite Hprefs.
  rewrite <- !app_comm_cons, app_nil_l, !fmap_cons, !sum_Z_cons. lia.
Qed.

(** X5.  The operator's list outweighs the session list as long as the
    session list has fewer than 100 entries: if the operator's valid
    entries place A before B, or name A and not B, then A is ranked
    above B whenever 100 times the length of the session list, plus
    what the process-wide scorers give B over A, stays below 10000. *)
Theorem operator_outweighs_session G dl url features only_include exclude jsi_params
    preferred_order fallback_jsi timeout user_agent tr self method_name args kwargs
    (hA hB : JSI) (i : nat) :
  __init__ sanitize_url_or_none _JSI_HANDLERS G dl url features only_include exclude
    jsi_params preferred_order fallback_jsi timeout user_agent = (tr, Return self) →
  filter (λ k, k ∈ odict_keys _JSI_HANDLERS) (params_jsi_preference dl) !! i
    = Some (JSI_KEY hA) →
  JSI_KEY hA ∉ take i (filter (λ k, k ∈ odict_keys _JSI_HANDLERS)
                              (params_jsi_preference dl)) →
  (JSI_KEY hB ∉ filter (λ k, k ∈ odict_keys _JSI_HANDLERS) (params_jsi_preference dl)
   ∨ ∃ j, (i < j)%nat
          ∧ filter (λ k, k ∈ odict_keys _JSI_HANDLERS) (params_jsi_preference dl) !! j
            = Some (JSI_KEY hB)
          ∧ JSI_KEY hB ∉ take j (filter (λ k, k ∈ odict_keys _JSI_HANDLERS)
                                        (params_jsi_preference dl))) →
  (Z.of_nat (length (get_jsi_keys preferred_order)) * 100
   + (global_score G method_name args kwargs hB
      - global_score G method_name args kwargs hA) < 10000)%Z →
  (combined_preference self method_name args kwargs hB
   < combined_preference self method_name args kwargs hA)%Z.
Proof.
  intros Hinit Hi Hfirst HB Hbound.
  rewrite !(combined_preference_layers _ _ _ _ _ _ _ _ _ _ _ _ _ _ _ _ _ Hinit).
  set (valid := filter _ _) in *.
  pose proof (lookup_lt_Some _ _ _ Hi) as Hlt.
  assert (HA : order_to_pref (OfStr <$> valid) 10000 hA method_name args kwargs
               = score_at (length valid) i 10000).
  { rewrite (order_to_pref_at _ _ _ _ _ _ i); rewrite get_jsi_keys_OfStr; done. }
  assert (HBop : (order_to_pref (OfStr <$> valid) 10000 hB method_name args kwargs
                  + 10000 ≤ score_at (length valid) i 10000)%Z).
  { destruct HB as [Hout|(j & Hij & Hj & Hjfirst)].
    - rewrite order_to_pref_absent by (by rewrite get_jsi_keys_OfStr).
      unfold score_at. lia.
    - pose proof (lookup_lt_Some _ _ _ Hj).
      rewrite (order_to_pref_at _ _ _ _ _ _ j); rewrite ?get_jsi_keys_OfStr; [|done..].
      unfold score_at. lia. }
  destruct (order_to_pref_multiple preferred_order 100 hB method_name args kwargs)
    as (qB & HqB & -> & _).
  pose proof (order_to_pref_nonneg preferred_order 100 hA method_name args kwargs
                ltac:(lia)).
  rewrite HA. lia.
Qed.

(** X6.  Registering a scorer restricted to some classes adds the value
    of the scorer to the combined preference of the instances of those
    classes (of every handler, when no class is given) and leaves the
    combined preference of every other handler as it was. *)
Theorem restricted_scorer_effect G classes (pref_func : JSIPreference) dl url features
    only_include exclude jsi_params preferred_order fallback_jsi timeout user_agent
    tr tr' self self' method_name args kwargs h :
  __init__ sanitize_url_or_none _JSI_HANDLERS G dl url features only_include exclude
    jsi_params preferred_order fallback_jsi timeout user_agent = (tr, Return self) →
  __init__ sanitize_url_or_none _JSI_HANDLERS (register_jsi_preference G classes pref_func)
    dl url features only_include exclude jsi_params preferred_order fallback_jsi
    timeout user_agent = (tr', Return self') →
  combined_preference self' method_name args kwargs h
  = (combined_preference self method_name args kwargs h
     + if bool_decide (classes = []) || isinstance h classes
       then pref_func h method_name args kwargs else 0)%Z.
Proof.
  intros Hinit Hinit'.
  rewrite (combined_preference_layers _ _ _ _ _ _ _ _ _ _ _ _ _ _ _ _ _ Hinit).
  rewrite (combined_preference_layers _ _ _ _ _ _ _ _ _ _ _ _ _ _ _ _ _ Hinit').
  unfold global_score, register_jsi_preference.
  rewrite fmap_app, sum_Z_app. simpl. rewrite sum_Z_cons.
  unfold restricted_pref at 1. change (sum_Z []) with 0%Z. lia.
Qed.

End preference_layers.

Lemma operator_outweighs_session_witness :
  let Alpha := Sample.instance Sample.AlphaJSI in
  let Beta := Sample.instance Sample.BetaJSI in
  let valid := filter (λ k, k ∈ odict_keys Sample.registry)
                      (params_jsi_preference Sample.dl_operator) in
  ∃ tr self,
    __init__ (λ u, Some u) Sample.registry initial_JSI_PREFERENCES Sample.dl_operator
      "" [] [] [] ∅ [OfStr "Alpha"] (FallbackOnly []) 10 None = (tr, Return self)
    ∧ valid !! 0%nat = Some (JSI_KEY Beta)
    ∧ (JSI_KEY Beta ∉ take 0 valid)
    ∧ (JSI_KEY Alpha ∉ valid)
    ∧ (Z.of_nat (length (get_jsi_keys [OfStr "Alpha"])) * 100
       + (global_score initial_JSI_PREFERENCES "execute" [] ∅ Alpha
          - global_score initial_JSI_PREFERENCES "execute" [] ∅ Beta) < 10000)%Z
    ∧ (combined_preference self "execute" [] ∅ Alpha
       < combined_preference self "execute" [] ∅ Beta)%Z.
Proof.
  intros Alpha Beta valid.
  destruct (__init__ (λ u, Some u) Sample.registry initial_JSI_PREFERENCES
              Sample.dl_operator "" [] [] [] ∅ [OfStr "Alpha"] (FallbackOnly []) 10 None)
    as [tr [self|e]] eqn:Hinit.
  2:{ exfalso. revert Hinit. by vm_compute. }
  assert (H1 : valid !! 0%nat = Some (JSI_KEY Beta)) by (by vm_compute).
  assert (H2 : JSI_KEY Beta ∉ take 0 valid) by apply not_elem_of_nil.
  assert (H3 : JSI_KEY Alpha ∉ valid).
  { apply (bool_decide_unpack _). by vm_compute. }
  assert (H4 : (Z.of_nat (length (get_jsi_keys [OfStr "Alpha"])) * 100
                + (global_score initial_JSI_PREFERENCES "execute" [] ∅ Alpha
                   - global_score initial_JSI_PREFERENCES "execute" [] ∅ Beta)
                < 10000)%Z) by (by vm_compute).
  exists tr, self. split; [reflexivity|].
  split_and!; [exact H1|exact H2|exact H3|exact H4|].
  exact (operator_outweighs_session (λ u, Some u) Sample.registry _ _ _ _ _ _ _ _ _ _ _
           tr self "execute" [] ∅ Beta Alpha 0 Hinit H1 H2 (or_introl H3) H4).
Defined.

Lemma restricted_scorer_effect_witness :
  let two : JSIPreference := λ _ _ _ _, 2%Z in
  ∃ tr self tr' self',
    __init__ (λ u, Some u) Sample.registry initial_JSI_PREFERENCES Sample.dl
      "" [] [] [] ∅ [] (FallbackOnly []) 10 None = (tr, Return self)
    ∧ __init__ (λ u, Some u) Sample.registry
        (register_jsi_preference initial_JSI_PREFERENCES [Sample.AlphaJSI] two) Sample.dl
        "" [] [] [] ∅ [] (FallbackOnly []) 10 None = (tr', Return self')
    ∧ combined_preference self' "execute" [] ∅ (Sample.instance Sample.AlphaJSI)
      = (combined_preference self "execute" [] ∅ (Sample.instance Sample.AlphaJSI) + 2)%Z
    ∧ combined_preference self' "execute" [] ∅ (Sample.instance Sample.BetaJSI)
      = (combined_preference self "execute" [] ∅ (Sample.instance Sample.BetaJSI) + 0)%Z.
Proof.
  intros two.
  destruct (__init__ (λ u, Some u) Sample.registry initial_JSI_PREFERENCES Sample.dl
              "" [] [] [] ∅ [] (FallbackOnly []) 10 None)
    as [tr [self|e]] eqn:Hinit.
  2:{ exfalso. revert Hinit. by vm_compute. }
  destruct (__init__ (λ u, Some u) Sample.registry
              (register_jsi_preference initial_JSI_PREFERENCES [Sample.AlphaJSI] two)
              Sample.dl "" [] [] [] ∅ [] (FallbackOnly []) 10 None)
    as [tr' [self'|e]] eqn:Hinit'.
  2:{ exfalso. revert Hinit'. by vm_compute. }
  exists tr, self, tr', self'. split; [reflexivity|]. split; [reflexivity|]. split.
  - exact (restricted_scorer_effect (λ u, Some u) Sample.registry _ [Sample.AlphaJSI] two
             _ _ _ _ _ _ _ _ _ _ tr tr' self self' "execute" [] ∅
             (Sample.instance Sample.AlphaJSI) Hinit Hinit').
  - exact (restricted_scorer_effect (λ u, Some u) Sample.registry _ [Sample.AlphaJSI] two
             _ _ _ _ _ _ _ _ _ _ tr tr' self self' "execute" [] ∅
             (Sample.instance Sample.BetaJSI) Hinit Hinit').
Defined.

(** ** Ranking *)

Lemma preference_table_ext (f g : JSI → Z) (hs : list JSI) (d : gmap string Z) :
  (∀ h, f h = g h) →
  foldl (λ d h, <[JSI_KEY h := f h]> d) d hs = foldl (λ d h, <[JSI_KEY h := g h]> d) d hs.
Proof.
  intros Hfg. revert d. induction hs as [|h hs IH]; intros d; simpl; [done|].
  by rewrite Hfg, IH.
Qed.

Lemma dispatch_loop_with_preferences (self : JSIWrapper) (prefs : list JSIPreference)
    method_name args kwargs hs U E :
  dispatch_loop (with_preferences self prefs) method_name args kwargs hs U E
  = dispatch_loop self method_name args kwargs hs U E.
Proof.
  revert U E. induction hs as [|h hs IH]; intros U E; [done|].
  cbn [dispatch_loop with_preferences _is_test _fallback_jsi].
  destruct (is_available h); cbn [negb].
  - destruct (getattr h method_name) as [method|]; [|done].
    destruct (method args kwargs); [done| |done].
    case_bool_decide; [done|]. by rewrite IH.
  - destruct (_is_test self); [done|]. by rewrite IH.
Qed.

(** X7.  The scorers of a wrapper form a set, iterated in no particular
    order: whatever the order, the ranking of [_get_handlers] and the
    whole dispatch are the same. *)
Theorem ranking_independent_of_scorer_order (self : JSIWrapper)
    (prefs : list JSIPreference) method_name args kwargs :
  preferences self ≡ₚ prefs →
  _get_handlers (with_preferences self prefs) method_name args kwargs
  = _get_handlers self method_name args kwargs
  ∧ _dispatch_request (with_preferences self prefs) method_name args kwargs
    = _dispatch_request self method_name args kwargs.
Proof.
  intros Hperm.
  assert (Hget : _get_handlers (with_preferences self prefs) method_name args kwargs
                 = _get_handlers self method_name args kwargs).
  { unfold _get_handlers. cbn [with_preferences _handler_dict].
    case_bool_decide; [done|].
    rewrite (preference_table_ext
               (combined_preference (with_preferences self prefs) method_name args kwargs)
               (combined_preference self method_name args kwargs)); [done|].
    intros h. symmetry. by apply combined_preference_perm. }
  split; [exact Hget|]. unfold _dispatch_request. rewrite Hget.
  destruct (_get_handlers self method_name args kwargs); [|done].
  by rewrite dispatch_loop_with_preferences.
Qed.

Lemma ranking_independent_of_scorer_order_witness :
  let self := Sample.ranked false in
  let prefs := initial_JSI_PREFERENCES
                 ++ [order_to_pref [OfStr "Gamma"; OfStr "Delta"; OfStr "Beta"] 100] in
  preferences self ≡ₚ prefs
  ∧ _get_handlers (with_preferences self prefs) "execute" [] ∅
    = _get_handlers self "execute" [] ∅
  ∧ _dispatch_request (with_preferences self prefs) "execute" [] ∅
    = _dispatch_request self "execute" [] ∅.
Proof.
  intros self prefs.
  assert (H : preferences self ≡ₚ prefs) by apply Permutation_swap.
  split; [exact H|].
  exact (ranking_independent_of_scorer_order self prefs "execute" [] ∅ H).
Defined.

(** X8.  Ties are broken by the order of the handler dict: among the
    handlers of any one combined score, [_get_handlers] keeps the order
    in which they were instantiated; when all candidates score the same
    the ranking is that order. *)
Theorem ties_keep_instantiation_order (self : JSIWrapper) method_name args kwargs
    (handlers : list JSI) :
  wrapper_wf self →
  _get_handlers self method_name args kwargs = Return handlers →
  (∀ score : Z,
     filter (λ h, combined_preference self method_name args kwargs h = score) handlers
     = filter (λ h, combined_preference self method_name args kwargs h = score)
              (filter (λ h, has_method method_name h)
                      (odict_values (_handler_dict self))))
  ∧ ((∃ score, ∀ h, h ∈ odict_values (_handler_dict self) →
                    combined_preference self method_name args kwargs h = score) →
     handlers = filter (λ h, has_method method_name h)
                       (odict_values (_handler_dict self))).
Proof.
  intros Hwf Hget.
  destruct (get_handlers_perm _ _ _ _ _ Hget) as [Hperm Hne].
  assert (Hcand : filter (λ h, has_method method_name h)
                    (odict_values (_handler_dict self)) ≠ []).
  { intros Hnil. rewrite Hnil in Hperm. by apply Permutation_nil_r in Hperm. }
  rewrite (get_handlers_sorted _ _ _ _ Hwf Hcand) in Hget. injection Hget as <-.
  split.
  - intros score. apply sorted_reverse_stable.
  - intros [score Hall].
    rewrite <- (filter_id_in
                  (λ h, combined_preference self method_name args kwargs h = score)
                  (sorted_reverse _ _)).
    + rewrite sorted_reverse_stable. apply filter_id_in.
      intros h [_ Hh]%list_elem_of_filter. by apply Hall.
    + intros h Hh. rewrite sorted_reverse_perm in Hh.
      apply list_elem_of_filter in Hh as [_ Hh]. by apply Hall.
Qed.

Lemma ties_keep_instantiation_order_witness :
  let self := Sample.not_installed false in
  wrapper_wf self
  ∧ _get_handlers self "execute" [] ∅
    = Return [Sample.instance Sample.GammaJSI; Sample.instance Sample.EpsilonJSI]
  ∧ (∃ score, ∀ h, h ∈ odict_values (_handler_dict self) →
                   combined_preference self "execute" [] ∅ h = score)
  ∧ [Sample.instance Sample.GammaJSI; Sample.instance Sample.EpsilonJSI]
    = filter (λ h, has_method "execute" h) (odict_values (_handler_dict self)).
Proof.
  intros self.
  assert (H1 : wrapper_wf self).
  { apply (bool_decide_unpack _). by vm_compute. }
  assert (H2 : _get_handlers self "execute" [] ∅
               = Return [Sample.instance Sample.GammaJSI;
                         Sample.instance Sample.EpsilonJSI]) by (by vm_compute).
  assert (H3 : ∃ score, ∀ h, h ∈ odict_values (_handler_dict self) →
                             combined_preference self "execute" [] ∅ h = score).
  { exists 0%Z. intros h Hh. simpl in Hh.
    apply elem_of_cons in Hh as [->|Hh]; [by vm_compute|].
    apply list_elem_of_singleton in Hh as ->. by vm_compute. }
  split_and!; [exact H1|exact H2|exact H3|].
  exact (proj2 (ties_keep_instantiation_order self "execute" [] ∅ _ H1 H2) H3).
Defined.

(** ** How a dispatch can end *)

Ltac loop_cases self method_name args kwargs h :=
  cbn [dispatch_loop];
  let Hav := fresh "Hav" in
  let Hget := fresh "Hget" in
  let Hcall := fresh "Hcall" in
  let Hfb := fresh "Hfb" in
  let Htest := fresh "Htest" in
  let Hrest := fresh "Hrest" in
  destruct (is_available h) eqn:Hav; cbn [negb];
  [ destruct (getattr h method_name) as [?method|] eqn:Hget;
    [ destruct (method args kwargs) as [?v|?e|?e] eqn:Hcall;
      [ | case_bool_decide as Hfb;
          [ | match goal with
              | |- context [dispatch_loop ?s ?m ?a ?k ?l ?u ?x] =>
                  destruct (dispatch_loop s m a k l u x) as [?tr ?r] eqn:Hrest
              end ]
        | ]
    | ]
  | destruct (_is_test self) eqn:Htest;
    [ | match goal with
        | |- context [dispatch_loop ?s ?m ?a ?k ?l ?u ?x] =>
            destruct (dispatch_loop s m a k l u x) as [?tr ?r] eqn:Hrest
        end ] ].


Lemma dispatch_loop_exhausted_all (self : JSIWrapper) method_name args kwargs hs U E
    tr U' E' :
  dispatch_loop self method_name args kwargs hs U E = (tr, LoopExhausted U' E') →
  Forall (fails_softly method_name args kwargs) hs
  ∧ Forall (λ h, is_available h = true → JSI_KEY h ∈ _fallback_jsi self) hs
  ∧ ((∃ h, h ∈ hs ∧ is_available h = false) → _is_test self = false).
Proof.
  revert U E tr. induction hs as [|h hs IH]; intros U E tr0.
  { intros _. split_and!; [constructor..|]. by intros (? & ?%not_elem_of_nil & _). }
  loop_cases self method_name args kwargs h; intros Heq; try done;
    injection Heq as <- ->.
  - apply IH in Hrest as (Hf & Hfall & Ht). split_and!.
    + constructor; [|done]. right. by exists method, e.
    + by constructor.
    + intros (h' & [->|Hin]%elem_of_cons & Hun); [congruence|]. apply Ht. by exists h'.
  - apply IH in Hrest as (Hf & Hfall & Ht). split_and!.
    + constructor; [|done]. by left.
    + constructor; [|done]. congruence.
    + done.
Qed.




(** X10.  In test mode an unavailable candidate is a hard failure: when
    the loop reaches it, the dispatch raises the "not available for
    testing" error naming it, with nothing after it probed; every
    handler the loop passed on its way was available and had failed,
    so that the list of unavailable names is empty. *)
Theorem test_mode_hard_failure (self : JSIWrapper) method_name args kwargs
    (pre post : list JSI) (h : JSI) (tr : list Event) (U : list string)
    (E : list (JSI * Msg)) :
  _is_test self = true →
  _get_handlers self method_name args kwargs = Return (pre ++ h :: post) →
  dispatch_loop self method_name args kwargs pre [] [] = (tr, LoopExhausted U E) →
  is_available h = false →
  _dispatch_request self method_name args kwargs
  = (tr ++ [EvIsAvailable (JSI_KEY h)],
     Raise (ExtractorError
              [Str (JSI_NAME h); Str " is not available for testing, add ";
               Str (JSI_KEY h); Str " in `exclude` if it should not be used"]))
  ∧ U = []
  ∧ Forall (λ h', is_available h' = true) pre.
Proof.
  intros Htest Hget Hpre Hav.
  assert (Hall : Forall (λ h', is_available h' = true) pre).
  { apply dispatch_loop_exhausted_all in Hpre as (_ & _ & Ht).
    apply Forall_forall. intros h' Hh'.
    destruct (is_available h') eqn:Hav'; [done|].
    rewrite Ht in Htest; [done|]. by exists h'. }
  split_and!; [| |done].
  - unfold _dispatch_request. rewrite Hget, dispatch_loop_app, Hpre.
    cbn [dispatch_loop]. rewrite Hav, Htest. done.
  - apply dispatch_loop_exhausted in Hpre as [-> _]. simpl.
    rewrite (filter_none (λ h', is_available h' = false)); [done|].
    intros h' Hh' Hun. rewrite Forall_forall in Hall. by rewrite (Hall _ Hh') in Hun.
Qed.

Lemma test_mode_hard_failure_witness :
  let self := Sample.ranked true in
  let Gamma := Sample.instance Sample.GammaJSI in
  let post := [Sample.instance Sample.DeltaJSI; Sample.instance Sample.BetaJSI;
               Sample.instance Sample.AlphaJSI] in
  _is_test self = true
  ∧ _get_handlers self "execute" [] ∅ = Return ([] ++ Gamma :: post)
  ∧ dispatch_loop self "execute" [] ∅ [] [] [] = ([], LoopExhausted [] [])
  ∧ is_available Gamma = false
  ∧ _dispatch_request self "execute" [] ∅
    = ([] ++ [EvIsAvailable (JSI_KEY Gamma)],
       Raise (ExtractorError
                [Str (JSI_NAME Gamma); Str " is not available for testing, add ";
                 Str (JSI_KEY Gamma); Str " in `exclude` if it should not be used"])).
Proof.
  intros self Gamma post.
  assert (H1 : _is_test self = true) by reflexivity.
  assert (H2 : _get_handlers self "execute" [] ∅ = Return ([] ++ Gamma :: post))
    by (by vm_compute).
  assert (H3 : dispatch_loop self "execute" [] ∅ [] [] [] = ([], LoopExhausted [] []))
    by reflexivity.
  assert (H4 : is_available Gamma = false) by reflexivity.
  split_and!; [exact H1|exact H2|exact H3|exact H4|].
  exact (proj1 (test_mode_hard_failure self "execute" [] ∅ [] post Gamma [] [] []
                  H1 H2 H3 H4)).
Defined.

(** X11.  Only [ExtractorError] can fall back: when the call of the
    handler the loop has reached raises any other exception, the
    dispatch ends with that exception, whether or not the handler is in
    the fallback list, and nothing after it is probed or called. *)
Theorem other_exception_propagates (self : JSIWrapper) method_name args kwargs
    (pre post : list JSI) (h : JSI) (tr : list Event) (U : list string)
    (E : list (JSI * Msg)) (method : list PyVal → Kwargs → CallOutcome) (msg : Msg) :
  _get_handlers self method_name args kwargs = Return (pre ++ h :: post) →
  dispatch_loop self method_name args kwargs pre [] [] = (tr, LoopExhausted U E) →
  is_available h = true →
  getattr h method_name = Some method →
  method args kwargs = RaisedOther msg →
  _dispatch_request self method_name args kwargs
  = (tr ++ [EvIsAvailable (JSI_KEY h); EvCall (JSI_KEY h) method_name],
     Raise (OtherException msg)).
Proof.
  intros Hget Hpre Hav Hm Hcall.
  unfold _dispatch_request. rewrite Hget, dispatch_loop_app, Hpre.
  cbn [dispatch_loop]. by rewrite Hav, Hm, Hcall.
Qed.

Lemma other_exception_propagates_witness :
  let Theta := Sample.instance Demo.ThetaJSI in
  let crash : list PyVal → Kwargs → CallOutcome :=
    λ _ _, RaisedOther [Str "division by zero"] in
  _get_handlers Demo.crashing "execute" [] ∅
  = Return ([] ++ Theta :: [Sample.instance Sample.AlphaJSI])
  ∧ dispatch_loop Demo.crashing "execute" [] ∅ [] [] [] = ([], LoopExhausted [] [])
  ∧ is_available Theta = true
  ∧ getattr Theta "execute" = Some crash
  ∧ crash [] ∅ = RaisedOther [Str "division by zero"]
  ∧ JSI_KEY Theta ∈ _fallback_jsi Demo.crashing
  ∧ _dispatch_request Demo.crashing "execute" [] ∅
    = ([] ++ [EvIsAvailable (JSI_KEY Theta); EvCall (JSI_KEY Theta) "execute"],
       Raise (OtherException [Str "division by zero"])).
Proof.
  intros Theta crash.
  assert (H1 : _get_handlers Demo.crashing "execute" [] ∅
               = Return ([] ++ Theta :: [Sample.instance Sample.AlphaJSI]))
    by (by vm_compute).
  assert (H2 : dispatch_loop Demo.crashing "execute" [] ∅ [] [] []
               = ([], LoopExhausted [] [])) by reflexivity.
  assert (H3 : is_available Theta = true) by reflexivity.
  assert (H4 : getattr Theta "execute" = Some crash) by reflexivity.
  assert (H5 : crash [] ∅ = RaisedOther [Str "division by zero"]) by reflexivity.
  assert (H6 : JSI_KEY Theta ∈ _fallback_jsi Demo.crashing).
  { apply (bool_decide_unpack _). by vm_compute. }
  split_and!; [exact H1|exact H2|exact H3|exact H4|exact H5|exact H6|].
  exact (other_exception_propagates Demo.crashing "execute" [] ∅ [] _ Theta [] [] []
           crash _ H1 H2 H3 H4 H5).
Defined.

(** ** What a dispatch touches *)

Lemma dispatch_loop_called (self : JSIWrapper) method_name args kwargs hs U E tr r :
  dispatch_loop self method_name args kwargs hs U E = (tr, r) →
  ∀ k, k ∈ called tr →
       ∃ h, h ∈ hs ∧ JSI_KEY h = k ∧ is_available h = true
            ∧ is_Some (getattr h method_name).
Proof.
  revert U E tr r. induction hs as [|h hs IH]; intros U E tr0 r0.
  { intros [= <- <-] k Hk. by apply not_elem_of_nil in Hk. }
  assert (Hlift : ∀ k, (∃ h', h' ∈ hs ∧ JSI_KEY h' = k ∧ is_available h' = true
                              ∧ is_Some (getattr h' method_name)) →
                       ∃ h', h' ∈ h :: hs ∧ JSI_KEY h' = k ∧ is_available h' = true
                             ∧ is_Some (getattr h' method_name)).
  { intros k (h' & ? & ?). exists h'. split; [|done]. apply elem_of_cons. by right. }
  loop_cases self method_name args kwargs h; intros Heq; injection Heq as <- <-;
    intros k Hk; cbn in Hk.
  - apply list_elem_of_singleton in Hk as ->. exists h.
    split_and!; [apply elem_of_cons; by left|done..].
  - apply list_elem_of_singleton in Hk as ->. exists h.
    split_and!; [apply elem_of_cons; by left|done..].
  - apply elem_of_cons in Hk as [->|Hk].
    + exists h. split_and!; [apply elem_of_cons; by left|done..].
    + apply Hlift. by eapply IH.
  - apply list_elem_of_singleton in Hk as ->. exists h.
    split_and!; [apply elem_of_cons; by left|done..].
  - by apply not_elem_of_nil in Hk.
  - by apply not_elem_of_nil in Hk.
  - apply Hlift. by eapply IH.
Qed.

Section selected_only.

Variable sanitize_url_or_none : string → option string.
Variable _JSI_HANDLERS : Registry.
Variable _JSI_PREFERENCES : list JSIPreference.

(** The handlers of a constructed wrapper are, in order, instances for
    the keys the lookup selected. *)
Lemma init_handler_keys dl url features only_include exclude jsi_params preferred_order
    fallback_jsi timeout user_agent tr self :
  registry_wf _JSI_HANDLERS →
  __init__ sanitize_url_or_none _JSI_HANDLERS _JSI_PREFERENCES dl url features
    only_include exclude jsi_params preferred_order fallback_jsi timeout user_agent
  = (tr, Return self) →
  JSI_KEY <$> odict_values (_handler_dict self)
  = filter_jsi_keys _JSI_HANDLERS (Some (list_to_set features))
                    (Some only_include) (Some exclude).
Proof.
  intros [Hkeyed Hnd] Hinit.
  apply init_Return in Hinit as (_ & _ & _ & (hs & Hhs & Hd) & _).
  destruct (filter_jsi_keys_registered _JSI_HANDLERS (list_to_set features)
              (Some only_include) (Some exclude)) as [Hreg Hnd'].
  specialize (Hnd' Hnd).
  assert (Hkeys : JSI_KEY <$> hs
                  = filter_jsi_keys _JSI_HANDLERS (Some (list_to_set features))
                      (Some only_include) (Some exclude)).
  { rewrite <- (registry_classes_keys _ _ Hkeyed Hreg) at 1. rewrite <- Hhs.
    by rewrite <- list_fmap_compose. }
  rewrite keyed_values_keys.
  - rewrite Hd, odict_fold_keys; [done|]. simpl. by rewrite Hkeys.
  - rewrite Hd. apply odict_fold_keyed. constructor.
Qed.

(** X12.  A dispatch on a constructed wrapper touches selected backends
    only: every key it probes or calls is registered, declares all the
    requested features, is in the include list when that list is not
    empty, and is not in the exclude list; and every key it calls
    belongs to a handler that is available and has the method. *)
Theorem dispatch_touches_selected_only dl url features only_include exclude jsi_params
    preferred_order fallback_jsi timeout user_agent tr0 self method_name args kwargs
    tr res :
  registry_wf _JSI_HANDLERS →
  __init__ sanitize_url_or_none _JSI_HANDLERS _JSI_PREFERENCES dl url features
    only_include exclude jsi_params preferred_order fallback_jsi timeout user_agent
  = (tr0, Return self) →
  _dispatch_request self method_name args kwargs = (tr, res) →
  (∀ k, k ∈ probed tr ∨ k ∈ called tr →
        k ∈ odict_keys _JSI_HANDLERS
        ∧ supports _JSI_HANDLERS (list_to_set features) k
        ∧ (only_include ≠ [] → k ∈ get_jsi_keys only_include)
        ∧ k ∉ get_jsi_keys exclude)
  ∧ (∀ k, k ∈ called tr →
          ∃ h, h ∈ odict_values (_handler_dict self) ∧ JSI_KEY h = k
               ∧ is_available h = true ∧ has_method method_name h).
Proof.
  intros Hwf Hinit. pose proof (init_handler_keys _ _ _ _ _ _ _ _ _ _ _ _ Hwf Hinit) as Hkeys.
  unfold _dispatch_request.
  destruct (_get_handlers self method_name args kwargs) as [hs|e] eqn:Hget.
  2:{ intros [= <- <-]. split.
      - intros k [Hk|Hk]; by apply not_elem_of_nil in Hk.
      - intros k Hk. by apply not_elem_of_nil in Hk. }
  destruct (get_handlers_perm _ _ _ _ _ Hget) as [Hperm _].
  destruct (dispatch_loop _ _ _ _ _ _ _) as [tr' r] eqn:Hloop. intros Hres.
  assert (tr' = tr) as -> by (destruct r; by injection Hres).
  pose proof (dispatch_loop_called _ _ _ _ _ _ _ _ _ Hloop) as Hcalled.
  apply dispatch_loop_run in Hloop as (pre & post & Hsplit & Hp & Hc & _).
  assert (Hin : ∀ h, h ∈ hs → h ∈ odict_values (_handler_dict self)
                              ∧ has_method method_name h).
  { intros h Hh. rewrite Hperm in Hh. apply list_elem_of_filter in Hh. tauto. }
  assert (Hsel : ∀ k, k ∈ probed tr →
                      k ∈ filter_jsi_keys _JSI_HANDLERS (Some (list_to_set features))
                            (Some only_include) (Some exclude)).
  { intros k Hk. rewrite Hp in Hk. apply list_elem_of_fmap in Hk as (h & -> & Hh).
    rewrite <- Hkeys. apply list_elem_of_fmap_2. apply Hin. rewrite Hsplit.
    apply elem_of_app. by left. }
  split.
  - intros k Hk.
    assert (Hk' : k ∈ probed tr).
    { destruct Hk as [?|Hk]; [done|]. by eapply elem_of_sublist. }
    apply Hsel in Hk'. rewrite filter_jsi_keys_as_filter in Hk'.
    apply list_elem_of_filter in Hk' as ((Hsup & Hinc & Hexc) & Hreg). simpl in *.
    split_and!; [done..| |done]. intros Hne. apply Hinc.
    destruct only_include; done.
  - intros k Hk. destruct (Hcalled k Hk) as (h & Hh & <- & Hav & Hm).
    exists h. destruct (Hin h Hh) as [? ?]. done.
Qed.

End selected_only.

Lemma dispatch_touches_selected_only_witness :
  registry_wf Sample.registry
  ∧ ∃ tr0 self tr res,
      __init__ (λ u, Some u) Sample.registry initial_JSI_PREFERENCES Sample.dl
        "" ["dom"] [OfStr "Delta"; OfStr "Alpha"; OfStr "Beta"] [OfClass Sample.DeltaJSI]
        ∅ [] FallbackAll 10 None = (tr0, Return self)
      ∧ _dispatch_request self "execute" [] ∅ = (tr, res)
      ∧ (∀ k, k ∈ probed tr ∨ k ∈ called tr →
              k ∈ odict_keys Sample.registry
              ∧ supports Sample.registry (list_to_set ["dom"]) k
              ∧ ([OfStr "Delta"; OfStr "Alpha"; OfStr "Beta"] ≠ [] →
                 k ∈ get_jsi_keys [OfStr "Delta"; OfStr "Alpha"; OfStr "Beta"])
              ∧ k ∉ get_jsi_keys [OfClass Sample.DeltaJSI])
      ∧ tr = [EvIsAvailable "Alpha"; EvCall "Alpha" "execute"].
Proof.
  assert (Hwf : registry_wf Sample.registry).
  { split; apply (bool_decide_unpack _); by vm_compute. }
  split; [exact Hwf|].
  destruct (__init__ (λ u, Some u) Sample.registry initial_JSI_PREFERENCES Sample.dl
              "" ["dom"] [OfStr "Delta"; OfStr "Alpha"; OfStr "Beta"]
              [OfClass Sample.DeltaJSI] ∅ [] FallbackAll 10 None)
    as [tr0 [self|e]] eqn:Hinit.
  2:{ exfalso. revert Hinit. by vm_compute. }
  destruct (_dispatch_request self "execute" [] ∅) as [tr res] eqn:Hrun.
  exists tr0, self, tr, res. split; [reflexivity|]. split; [exact Hrun|]. split.
  - exact (proj1 (dispatch_touches_selected_only (λ u, Some u) Sample.registry
                    initial_JSI_PREFERENCES _ _ _ _ _ _ _ _ _ _ tr0 self "execute" [] ∅
                    tr res Hwf Hinit Hrun)).
  - vm_compute in Hinit. injection Hinit as <- <-.
    vm_compute in Hrun. by injection Hrun as <- _.
Defined.

(** ** How a construction can end *)


Lemma JSI__init___Return cls dl url timeout fs ua extra h :
  JSI__init__ cls dl url timeout fs ua extra = Return h →
  cls_init cls extra = None
  ∧ fs ⊆ _SUPPORTED_FEATURES cls
  ∧ jsi_class h = cls ∧ jsi_url h = url ∧ jsi_timeout h = timeout ∧ jsi_features h = fs
  ∧ jsi_user_agent h = match ua with
                       | Some s => if decide (s = "") then params_user_agent dl else s
                       | None => params_user_agent dl
                       end.
Proof.
  unfold JSI__init__, issuperset. destruct (cls_init cls extra); [done|].
  case_bool_decide; [|done]. by intros [= <-].
Qed.





Section construction_outcomes.

Variable sanitize_url_or_none : string → option string.
Variable _JSI_HANDLERS : Registry.
Variable _JSI_PREFERENCES : list JSIPreference.


End construction_outcomes.

Section construction_results.

Variable sanitize_url_or_none : string → option string.
Variable _JSI_HANDLERS : Registry.
Variable _JSI_PREFERENCES : list JSIPreference.




End construction_results.



(** ** The operator's preference list *)

(** X16.  The clean-up of the operator's [jsi_preference] list emits one
    warning per invalid occurrence, in order, and leaves exactly the
    registered keys, in their order; run again on its own result it
    warns about nothing and changes nothing. *)
Theorem invalid_preferences_dropped (valid user_prefs : list string) :
  drop_invalid_prefs (filter (λ k, k ∉ valid) user_prefs) user_prefs
  = (invalid_preference_warning <$> filter (λ k, k ∉ valid) user_prefs,
     Return (filter (λ k, k ∈ valid) user_prefs))
  ∧ drop_invalid_prefs
      (filter (λ k, k ∉ valid) (filter (λ k, k ∈ valid) user_prefs))
      (filter (λ k, k ∈ valid) user_prefs)
    = ([], Return (filter (λ k, k ∈ valid) user_prefs)).
Proof.
  assert (Hgen : ∀ l pre, Forall (λ k, k ∈ valid) pre →
            drop_invalid_prefs (filter (λ k, k ∉ valid) l) (pre ++ l)
            = (invalid_preference_warning <$> filter (λ k, k ∉ valid) l,
               Return (pre ++ filter (λ k, k ∈ valid) l))).
  { induction l as [|x l IH]; intros pre Hpre.
    - by rewrite !filter_nil.
    - destruct (decide (x ∈ valid)) as [Hx|Hx].
      + rewrite filter_cons_False by (intros ?; done).
        rewrite filter_cons_True by done.
        specialize (IH (pre ++ [x])). rewrite <- !app_assoc in IH. apply IH.
        apply Forall_app. split; [done|]. by repeat constructor.
      + rewrite filter_cons_True by done. rewrite filter_cons_False by done.
        cbn [drop_invalid_prefs]. rewrite list_remove_app_notin.
        2:{ intros Hin. rewrite Forall_forall in Hpre. by apply Hx, Hpre. }
        rewrite (IH pre Hpre). done. }
  split.
  - apply (Hgen user_prefs []). constructor.
  - rewrite (filter_none (λ k, k ∉ valid)); [done|].
    intros k [Hk _]%list_elem_of_filter. by intros ?.
Qed.

(** ** The decorator *)

Lemma check_features_None (table : list (string * FeatureSpec)) (self : JSIWrapper)
    (kwargs : Kwargs) :
  check_features table self kwargs = None
  ↔ Forall (λ kf, kf.1 ∈ (dom kwargs : gset string) →
                  list_to_set (C:=gset string) (variadic kf.2) ⊆ _features self) table.
Proof.
  induction table as [|[kw f] table IH]; simpl; [by split; [constructor|]|].
  unfold issuperset. rewrite Forall_cons. simpl.
  destruct (bool_decide (kw ∈ dom kwargs)) eqn:Hkw; simpl.
  - apply bool_decide_eq_true in Hkw. case_bool_decide as Hsup; simpl.
    + rewrite IH. tauto.
    + split; [done|]. intros [Himp _]. exfalso. apply Hsup. by apply Himp.
  - apply bool_decide_eq_false in Hkw. rewrite IH. tauto.
Qed.

(** X17.  [require_features] builds a decorator exactly when every
    feature of its table is in the closed set.  The decorated function
    runs the original unchanged when each keyword argument named in the
    table comes with its features declared on the wrapper; otherwise it
    raises an [ExtractorError] without running the original, so that no
    event is emitted. *)
Theorem require_features_guard (table : list (string * FeatureSpec)) (func : Method)
    (self : JSIWrapper) (args : list PyVal) (kwargs : Kwargs) :
  ((∃ decorate, require_features table = Return decorate)
   ↔ Forall (λ kf, list_to_set (C:=gset string) (variadic kf.2) ⊆ _ALL_FEATURES) table)
  ∧ ∀ decorate, require_features table = Return decorate →
      (Forall (λ kf, kf.1 ∈ (dom kwargs : gset string) →
                     list_to_set (C:=gset string) (variadic kf.2) ⊆ _features self)
              table →
       decorate func self args kwargs = func self args kwargs)
      ∧ (¬ Forall (λ kf, kf.1 ∈ (dom kwargs : gset string) →
                         list_to_set (C:=gset string) (variadic kf.2) ⊆ _features self)
                  table →
         ∃ msg, decorate func self args kwargs = ([], Raise (ExtractorError msg))).
Proof.
  unfold require_features. split.
  - destruct (forallb _ table) eqn:Hall; cbn [negb].
    + split; [intros _|by eexists].
      apply Forall_forall. intros kf Hkf.
      rewrite forallb_forall in Hall. specialize (Hall kf).
      rewrite <- list_elem_of_In in Hall. specialize (Hall Hkf).
      by apply bool_decide_eq_true in Hall.
    + split; [by intros [? ?]|]. intros HF. exfalso.
      assert (forallb (λ kf : string * FeatureSpec,
                issuperset _ALL_FEATURES (list_to_set (variadic kf.2))) table = true)
        as Htrue; [|congruence].
      apply forallb_forall. intros kf Hkf%list_elem_of_In.
      rewrite Forall_forall in HF. by apply bool_decide_eq_true, HF.
  - intros decorate. destruct (negb _); [done|]. intros [= <-]. split.
    + intros Hok%check_features_None. by rewrite Hok.
    + intros Hbad. destruct (check_features table self kwargs) as [e|] eqn:Hc.
      * clear Hbad. revert Hc. induction table as [|[kw f] table IH]; [done|].
        simpl. destruct (_ && _); [intros [= <-]; by eexists|]. exact IH.
      * by apply check_features_None in Hc.
Qed.

Lemma require_features_guard_witness :
  ∃ decorate,
    require_features execute_features = Return decorate
    ∧ Forall (λ kf, kf.1 ∈ (dom ({[ "note" := PStr "n" ]} : Kwargs) : gset string) →
                    list_to_set (C:=gset string) (variadic kf.2)
                    ⊆ _features Sample.echo) execute_features
    ∧ decorate execute_body Sample.echo [PStr "js"; PStr "id"] {[ "note" := PStr "n" ]}
      = execute_body Sample.echo [PStr "js"; PStr "id"] {[ "note" := PStr "n" ]}.
Proof.
  destruct (require_features execute_features) as [decorate|e] eqn:Hdec.
  2:{ exfalso. unfold require_features in Hdec.
      destruct (negb (forallb _ _)) eqn:Hassert; [|done].
      revert Hassert. by vm_compute. }
  assert (H : Forall (λ kf, kf.1 ∈ (dom ({[ "note" := PStr "n" ]} : Kwargs) : gset string) →
                            list_to_set (C:=gset string) (variadic kf.2)
                            ⊆ _features Sample.echo) execute_features).
  { repeat constructor; cbn [fst]; intros Hin; exfalso; revert Hin;
      apply not_elem_of_dom; by apply lookup_singleton_ne. }
  exists decorate. split; [reflexivity|]. split; [exact H|].
  exact (proj1 (proj2 (require_features_guard execute_features execute_body Sample.echo
                         [PStr "js"; PStr "id"] {[ "note" := PStr "n" ]})
                  decorate Hdec) H).
Defined.

Lemma instantiate_all_instances dl url timeout fs ua params classes acc tr d h :
  instantiate_all dl url timeout fs ua params classes acc = (tr, Return d) →
  h ∈ odict_values d →
  h ∈ odict_values acc
  ∨ ∃ cls, cls ∈ classes
           ∧ JSI__init__ cls dl url timeout fs ua (default ∅ (params !! cls_JSI_KEY cls))
             = Return h.
Proof.
  revert acc tr. induction classes as [|cls classes IH]; intros acc tr.
  - intros [= <- <-]. by left.
  - cbn [instantiate_all].
    destruct (JSI__init__ _ _ _ _ _ _ _) as [h0|e] eqn:Hh; simpl; [|done].
    destruct (instantiate_all _ _ _ _ _ _ classes _) as [tr' r] eqn:Hrest.
    intros [= <- ->] Hin. destruct (IH _ _ Hrest Hin) as [Hacc|(c & Hc & Hinit)].
    + apply odict_set_values in Hacc as [->|Hacc]; [|by left].
      right. exists cls. split; [apply elem_of_cons; by left|done].
    + right. exists c. split; [apply elem_of_cons; by right|done].
Qed.

Section handlers_of_a_wrapper.

Variable sanitize_url_or_none : string → option string.
Variable _JSI_HANDLERS : Registry.
Variable _JSI_PREFERENCES : list JSIPreference.

(** X18.  Every handler of a constructed wrapper was built for the
    request of the wrapper: it carries the wrapper's feature set, which
    its class declares in full, the wrapper's sanitized url and the
    timeout given to the constructor; its user agent is the one given,
    or the downloader's when none or an empty one is given. *)
Theorem handlers_match_request dl url features only_include exclude jsi_params
    preferred_order fallback_jsi timeout user_agent tr self h :
  __init__ sanitize_url_or_none _JSI_HANDLERS _JSI_PREFERENCES dl url features
    only_include exclude jsi_params preferred_order fallback_jsi timeout user_agent
  = (tr, Return self) →
  h ∈ odict_values (_handler_dict self) →
  jsi_features h = _features self
  ∧ _features self ⊆ _SUPPORTED_FEATURES (jsi_class h)
  ∧ jsi_url h = _url self
  ∧ _url self = default "" (sanitize_url_or_none url)
  ∧ jsi_timeout h = timeout
  ∧ jsi_user_agent h = match user_agent with
                       | Some s => if decide (s = "") then params_user_agent dl else s
                       | None => params_user_agent dl
                       end.
Proof.
  unfold __init__. intros Hinit Hin.
  apply bind_Return in Hinit as (tr1 & [] & tr2 & _ & Hinit & ->).
  case_bool_decide as Hfs; simpl in Hinit; [|done].
  apply bind_Return in Hinit as (tr3 & user_prefs & tr4 & _ & Hinit & ->).
  case_bool_decide as Hcls; [done|].
  apply bind_Return in Hinit as (tr5 & d & tr6 & Hinst & Hret & ->).
  injection Hret as <- <-. simpl in *.
  destruct (instantiate_all_instances _ _ _ _ _ _ _ _ _ _ _ Hinst Hin)
    as [Hnil|(cls & _ & Hh)].
  { by apply not_elem_of_nil in Hnil. }
  apply JSI__init___Return in Hh as (_ & Hsup & <- & -> & -> & -> & ->). done.
Qed.

End handlers_of_a_wrapper.

Lemma handlers_match_request_witness :
  ∃ tr self h,
    __init__ (λ u, Some u) Sample.registry initial_JSI_PREFERENCES Sample.dl
      "https://example.com/" ["dom"] [] [] ∅ [] FallbackAll 30 (Some "")
    = (tr, Return self)
    ∧ h ∈ odict_values (_handler_dict self)
    ∧ jsi_features h = _features self
    ∧ jsi_timeout h = 30%Z
    ∧ jsi_user_agent h = "Mozilla/5.0".
Proof.
  destruct (__init__ (λ u, Some u) Sample.registry initial_JSI_PREFERENCES Sample.dl
              "https://example.com/" ["dom"] [] [] ∅ [] FallbackAll 30 (Some ""))
    as [tr [self|e]] eqn:Hinit.
  2:{ exfalso. revert Hinit. by vm_compute. }
  destruct (odict_values (_handler_dict self)) as [|h hs] eqn:Hvals.
  { exfalso. revert Hvals. vm_compute in Hinit. injection Hinit as <- <-.
    by vm_compute. }
  assert (Hin : h ∈ odict_values (_handler_dict self)).
  { rewrite Hvals. apply elem_of_cons. by left. }
  exists tr, self, h. split; [reflexivity|]. split; [exact Hin|].
  destruct (handlers_match_request (λ u, Some u) Sample.registry initial_JSI_PREFERENCES
              _ _ _ _ _ _ _ _ _ _ tr self h Hinit Hin) as (H1 & _ & _ & _ & H2 & H3).
  split; [exact H1|]. split; [exact H2|]. exact H3.
Defined.

Lemma bind_arguments_positional (jscode video_id note html cookiejar : PyVal) :
  bind_arguments execute_params 2 [jscode; video_id; note; html; cookiejar] ∅
  = bind_arguments execute_params 2 [jscode; video_id]
      (<["note" := note]> (<["html" := html]> {[ "cookiejar" := cookiejar ]}))
  ∧ bind_arguments execute_params 2 [jscode; video_id; note; html; cookiejar] ∅
    = Return (list_to_map [("jscode", jscode); ("video_id", video_id); ("note", note);
                           ("html", html); ("cookiejar", cookiejar)]).
Proof. split; by vm_compute. Qed.

Lemma forwarded_kwargs (jscode video_id note html cookiejar : PyVal) :
  let bound : gmap string PyVal :=
    list_to_map [("jscode", jscode); ("video_id", video_id); ("note", note);
                 ("html", html); ("cookiejar", cookiejar)] in
  (list_to_map [("note", default PNone (bound !! "note"));
                ("html", default PNone (bound !! "html"));
                ("cookiejar", default PNone (bound !! "cookiejar"))] : gmap string PyVal)
  = <["note" := note]> (<["html" := html]> {[ "cookiejar" := cookiejar ]})
  ∧ default PNone (bound !! "jscode") = jscode
  ∧ default PNone (bound !! "video_id") = video_id.
Proof. split_and!; by vm_compute. Qed.

Lemma execute_body_positional (self : JSIWrapper)
    (jscode video_id note html cookiejar : PyVal) :
  execute_body self [jscode; video_id; note; html; cookiejar] ∅
  = _dispatch_request self "execute" [jscode; video_id]
      (filter_dict (<["note" := note]> (<["html" := html]> {[ "cookiejar" := cookiejar ]})))
  ∧ execute_body self [jscode; video_id]
      (<["note" := note]> (<["html" := html]> {[ "cookiejar" := cookiejar ]}))
    = _dispatch_request self "execute" [jscode; video_id]
        (filter_dict (<["note" := note]> (<["html" := html]> {[ "cookiejar" := cookiejar ]}))).
Proof.
  destruct (bind_arguments_positional jscode video_id note html cookiejar) as [Heq Hret].
  destruct (forwarded_kwargs jscode video_id note html cookiejar) as (H1 & H2 & H3).
  cbv zeta in H1, H2, H3.
  unfold execute_body. rewrite <- Heq, Hret. cbv zeta beta.
  rewrite H1, H2, H3. done.
Qed.

(** X19.  On a wrapper that declares dom and cookies, passing note,
    html and cookiejar by position or by keyword is the same call of
    [execute]: either way the request dispatched is [execute] with the
    code and the id as arguments and the three values as keyword
    arguments, those that are [None] left out. *)
Theorem execute_positional_is_keyword (self : JSIWrapper)
    (jscode video_id note html cookiejar : PyVal) :
  "dom" ∈ _features self → "cookies" ∈ _features self →
  execute self [jscode; video_id; note; html; cookiejar] ∅
  = execute self [jscode; video_id]
      (<["note" := note]> (<["html" := html]> {[ "cookiejar" := cookiejar ]}))
  ∧ execute self [jscode; video_id; note; html; cookiejar] ∅
    = _dispatch_request self "execute" [jscode; video_id]
        (filter_dict (<["note" := note]> (<["html" := html]> {[ "cookiejar" := cookiejar ]}))).
Proof.
  intros Hdom Hcookies.
  destruct (execute_body_positional self jscode video_id note html cookiejar)
    as [Hpos Hkw].
  assert (Hl : execute self [jscode; video_id; note; html; cookiejar] ∅
               = execute_body self [jscode; video_id; note; html; cookiejar] ∅).
  { rewrite execute_unfold, check_features_execute.
    rewrite !(bool_decide_eq_false_2 (_ ∈ dom ∅)) by (rewrite dom_empty_L; set_solver).
    done. }
  assert (Hr : execute self [jscode; video_id]
                 (<["note" := note]> (<["html" := html]> {[ "cookiejar" := cookiejar ]}))
               = execute_body self [jscode; video_id]
                   (<["note" := note]> (<["html" := html]> {[ "cookiejar" := cookiejar ]}))).
  { rewrite execute_unfold, check_features_execute.
    rewrite (bool_decide_eq_true_2 ("dom" ∈ _)) by done.
    rewrite (bool_decide_eq_true_2 ("cookies" ∈ _)) by done.
    rewrite !andb_false_r.
    rewrite (bool_decide_eq_false_2 ("location" ∈ _)); [done|].
    apply not_elem_of_dom. by rewrite !lookup_insert_ne, lookup_singleton_ne. }
  split; [by rewrite Hl, Hr, Hpos, Hkw|by rewrite Hl, Hpos].
Qed.

Lemma execute_positional_is_keyword_witness :
  let self := Sample.wrapper [Sample.EchoJSI] initial_JSI_PREFERENCES [] false in
  let declared : JSIWrapper := 
    {| _downloader := _downloader self; _url := _url self;
       _features := {[ "dom"; "cookies" ]}; _handler_dict := _handler_dict self;
       preferences := preferences self; _fallback_jsi := _fallback_jsi self;
       _is_test := _is_test self |} in
  "dom" ∈ _features declared
  ∧ "cookies" ∈ _features declared
  ∧ execute declared [PStr "js"; PStr "id"; PNone; PStr "<html>"; PNone] ∅
    = execute declared [PStr "js"; PStr "id"]
        (<["note" := PNone]> (<["html" := PStr "<html>"]> {[ "cookiejar" := PNone ]})).
Proof.
  intros self declared.
  assert (H1 : "dom" ∈ _features declared).
  { apply (bool_decide_unpack _). by vm_compute. }
  assert (H2 : "cookies" ∈ _features declared).
  { apply (bool_decide_unpack _). by vm_compute. }
  split; [exact H1|]. split; [exact H2|].
  exact (proj1 (execute_positional_is_keyword declared (PStr "js") (PStr "id") PNone
                  (PStr "<html>") PNone H1 H2)).
Defined.
